(** * Cross-section viewer: limit functions and view state

    A shallow embedding of [vistools/backend/mpl/cross_section_2d.py].

    Modelling conventions.
    - Numbers (pixel values, percentile ranks, cursor coordinates) are exact
      rationals in canonical form ([Qc]); IEEE rounding and the special
      values NaN and infinity are outside the model.
    - A 2D ndarray is its shape together with its row-major buffer.
    - A Python exception is a [Raise] result; code that mutates [self] is
      written in a state-and-error monad over the view record, so that an
      exception keeps the assignments made before it.
    - Limit parameters and color limits are pairs of numbers; [==] on them
      is equality of the pairs.
    - The plotting toolkit is modelled by the attributes this module sets on
      its objects (axis limits, color limits, line data, visibility, cursor
      activity); an axis stores the limits it is given.  Pixels on the
      canvas, the colormap and the normalisation are not represented. *)

From Stdlib Require Import ZArith QArith Qcanon Qround Lia.
From stdpp Require Import base numbers list sorting gmap strings.

Local Open Scope Qc_scope.

(** ** Exceptions and results *)

Inductive exn : Type := ValueError | IndexError | KeyError.

Inductive result (A : Type) : Type :=
| Ok (a : A)
| Raise (e : exn).
Arguments Ok {A} a.
Arguments Raise {A} e.

Definition result_bind {A B} (r : result A) (k : A → result B) : result B :=
  match r with
  | Ok a => k a
  | Raise e => Raise e
  end.

(** ** Images *)

Record image : Type := Image {
  numrows : nat;
  numcols : nat;
  pix : list Qc   (* row-major buffer *)
}.

Definition shape (im : image) : nat * nat := (numrows im, numcols im).

Definition well_shaped (im : image) : Prop :=
  length (pix im) = (numrows im * numcols im)%nat.

(** [im[row, col]] for indices already known to be non-negative. *)
Definition getitem (im : image) (row col : nat) : result Qc :=
  match pix im !! (row * numcols im + col)%nat with
  | Some z => Ok z
  | None => Raise IndexError
  end.

(** [im[row, :]] *)
Definition row_slice (im : image) (row : nat) : list Qc :=
  take (numcols im) (drop (row * numcols im) (pix im)).

(** [im[:, col]] *)
Definition col_slice (im : image) (col : nat) : list Qc :=
  omap (λ r, pix im !! (r * numcols im + col)%nat) (seq 0 (numrows im)).

(** ** The part of numpy the module calls *)

Definition Qc_min (x y : Qc) : Qc := if decide (x ≤ y) then x else y.
Definition Qc_max (x y : Qc) : Qc := if decide (x ≤ y) then y else x.

(** [np.min(a)]: reduction over all elements; a zero-size array has no
    minimum and numpy raises [ValueError]. *)
Definition np_min (a : image) : result Qc :=
  match pix a with
  | [] => Raise ValueError
  | x :: xs => Ok (foldl Qc_min x xs)
  end.

(** [np.max(a)] *)
Definition np_max (a : image) : result Qc :=
  match pix a with
  | [] => Raise ValueError
  | x :: xs => Ok (foldl Qc_max x xs)
  end.

Definition hundred : Qc := Qc_of_Z 100.

Definition valid_rank (q : Qc) : Prop := 0 ≤ q ∧ q ≤ hundred.

(** The default (linear) interpolation of [np.percentile] on the ordered
    data [ap]: numpy takes the fractional index [q / 100 * (N - 1)] and mixes
    the two neighbouring order statistics with the weights [1 - w] and [w],
    [w] being the fractional part of the index.  An empty array has no
    percentile (numpy gives NaN or fails, depending on the version); the
    model reports it as an error. *)
Definition _percentile (ap : list Qc) (q : Qc) : result Qc :=
  let Nx := length ap in
  match ap with
  | [] => Raise IndexError
  | x0 :: _ =>
      let indices := q / hundred * Qc_of_Z (Z.of_nat Nx - 1) in
      let indices_below := Z.to_nat (Qfloor indices) in
      let indices_above := Nat.min (indices_below + 1) (Nx - 1) in
      let weights_above := indices - Qc_of_Z (Z.of_nat indices_below) in
      let weights_below := 1 - weights_above in
      let x1 := nth indices_below ap x0 * weights_below in
      let x2 := nth indices_above ap x0 * weights_above in
      Ok (x1 + x2)
  end.

(** [np.percentile(a, (q_lo, q_hi))]: ranks outside [0, 100] raise
    [ValueError]; otherwise the flattened data is ordered and one value per
    rank is returned. *)
Definition np_percentile (a : image) (q : Qc * Qc) : result (Qc * Qc) :=
  if decide (valid_rank (fst q) ∧ valid_rank (snd q)) then
    let ap := merge_sort Qcle (pix a) in
    result_bind (_percentile ap (fst q)) (λ lo,
    result_bind (_percentile ap (snd q)) (λ hi,
    Ok (lo, hi)))
  else Raise ValueError.

(** ** Limit functions

    A limit function receives two argument objects, the image and the limit
    parameters.  Python passes both by reference, so the callee could write
    to them; the call is therefore a computation over the pair of argument
    objects that returns a result and their final contents.  The type [P] of
    the parameters is left open where the function does not look at them. *)

Definition params : Type := Qc * Qc.
Definition climits : Type := Qc * Qc.

Record call_args (P : Type) : Type := CallArgs {
  im : image;
  limit_args : P
}.
Arguments CallArgs {P} im limit_args.
Arguments im {P} c.
Arguments limit_args {P} c.

Definition LimitM (P A : Type) : Type :=
  call_args P → result A * call_args P.

Definition lret {P A} (a : A) : LimitM P A := λ σ, (Ok a, σ).

Definition lbind {P A B} (m : LimitM P A) (k : A → LimitM P B)
    : LimitM P B :=
  λ σ, match m σ with
       | (Ok a, σ') => k a σ'
       | (Raise e, σ') => (Raise e, σ')
       end.

(** Evaluating an argument name. *)
Definition arg {P A} (name : call_args P → A) : LimitM P A :=
  λ σ, (Ok (name σ), σ).

(** Calling a numpy function, which only reads the arrays it is given. *)
Definition numpy_call {P A} (r : result A) : LimitM P A := λ σ, (r, σ).

Declare Scope limit_scope.
Delimit Scope limit_scope with limit.
Notation "x <- m ;; k" := (lbind m (λ x, k))
  (at level 100, m at next level, right associativity) : limit_scope.

Definition _full_range {P} : LimitM P climits :=
  (a <- arg im ;;
   lo <- numpy_call (np_min a) ;;
   b <- arg im ;;
   hi <- numpy_call (np_max b) ;;
   lret (lo, hi))%limit.

Definition _absolute_limit : LimitM params climits :=
  (l <- arg limit_args ;; lret l)%limit.

Definition _percentile_limit : LimitM params climits :=
  (a <- arg im ;;
   q <- arg limit_args ;;
   numpy_call (np_percentile a q))%limit.

(** The value a call returns, as a function of the contents of its
    arguments. *)
Definition returns {P} (f : LimitM P climits) : image → P → result climits :=
  λ i l, (f (CallArgs i l)).1.

(** The view holds its limit function and calls it on its own image and
    parameters; by the data model this is a pure function, which the view
    keeps as the map from argument contents to result. *)
Definition limit_fn : Type := image → params → result climits.

(** ** Toolkit objects *)

(** The axes of the figure: [_im_ax], [_ax_h], [_ax_v], [_ax_cb]. *)
Inductive axes : Type := ImAx | AxH | AxV | AxCb.

Global Instance axes_eq_dec : EqDecision axes.
Proof. solve_decision. Defined.

Record MouseEvent : Type := {
  inaxes : option axes;
  xdata : option Qc;
  ydata : option Qc
}.

(** What [canvas.copy_from_bbox] saves of a side panel: the panel as last
    drawn, which in the model is the axis range it was drawn with. *)
Record region : Type := Region { drawn_lim : climits }.

(** ** The view *)

Record View : Type := {
  _data_dict : gmap string image;   (* image set of the base class *)
  _key_list : list string;   (* keys of the base class, in display order *)
  _limit_func : limit_fn;
  _limit_args : params;
  _active : bool;
  _imdata : image;   (* current image *)
  _im_data : image;   (* array shown by the AxesImage [_im] *)
  _im_clim : option climits;   (* color limits of [_im]; [None]: toolkit default *)
  cur_active : bool;   (* [cur.active] *)
  _ax_h_ylim : climits;   (* y-limits of the horizontal cut axes *)
  _ax_v_xlim : climits;   (* x-limits of the vertical cut axes *)
  _ln_h_ydata : list Qc;
  _ln_h_visible : bool;
  _ln_v_xdata : list Qc;
  _ln_v_visible : bool;
  _ax_v_bk : option region;
  _ax_h_bk : option region;
  _row : option Z;
  _col : option Z;
  vmin : option Qc;   (* unset until [replot] *)
  vmax : option Qc
}.

(** Attribute assignment, one function per attribute that is written. *)

Definition with_limit_func (v : limit_fn) (self : View) : View :=
  {| _data_dict := _data_dict self; _key_list := _key_list self;
     _limit_func := v; _limit_args := _limit_args self;
     _active := _active self; _imdata := _imdata self;
     _im_data := _im_data self; _im_clim := _im_clim self;
     cur_active := cur_active self; _ax_h_ylim := _ax_h_ylim self;
     _ax_v_xlim := _ax_v_xlim self; _ln_h_ydata := _ln_h_ydata self;
     _ln_h_visible := _ln_h_visible self; _ln_v_xdata := _ln_v_xdata self;
     _ln_v_visible := _ln_v_visible self; _ax_v_bk := _ax_v_bk self;
     _ax_h_bk := _ax_h_bk self; _row := _row self; _col := _col self;
     vmin := vmin self; vmax := vmax self |}.

Definition with_limit_args (v : params) (self : View) : View :=
  {| _data_dict := _data_dict self; _key_list := _key_list self;
     _limit_func := _limit_func self; _limit_args := v;
     _active := _active self; _imdata := _imdata self;
     _im_data := _im_data self; _im_clim := _im_clim self;
     cur_active := cur_active self; _ax_h_ylim := _ax_h_ylim self;
     _ax_v_xlim := _ax_v_xlim self; _ln_h_ydata := _ln_h_ydata self;
     _ln_h_visible := _ln_h_visible self; _ln_v_xdata := _ln_v_xdata self;
     _ln_v_visible := _ln_v_visible self; _ax_v_bk := _ax_v_bk self;
     _ax_h_bk := _ax_h_bk self; _row := _row self; _col := _col self;
     vmin := vmin self; vmax := vmax self |}.

Definition with_active (v : bool) (self : View) : View :=
  {| _data_dict := _data_dict self; _key_list := _key_list self;
     _limit_func := _limit_func self; _limit_args := _limit_args self;
     _active := v; _imdata := _imdata self; _im_data := _im_data self;
     _im_clim := _im_clim self; cur_active := cur_active self;
     _ax_h_ylim := _ax_h_ylim self; _ax_v_xlim := _ax_v_xlim self;
     _ln_h_ydata := _ln_h_ydata self; _ln_h_visible := _ln_h_visible self;
     _ln_v_xdata := _ln_v_xdata self; _ln_v_visible := _ln_v_visible self;
     _ax_v_bk := _ax_v_bk self; _ax_h_bk := _ax_h_bk self; _row := _row self;
     _col := _col self; vmin := vmin self; vmax := vmax self |}.

Definition with_imdata (v : image) (self : View) : View :=
  {| _data_dict := _data_dict self; _key_list := _key_list self;
     _limit_func := _limit_func self; _limit_args := _limit_args self;
     _active := _active self; _imdata := v; _im_data := _im_data self;
     _im_clim := _im_clim self; cur_active := cur_active self;
     _ax_h_ylim := _ax_h_ylim self; _ax_v_xlim := _ax_v_xlim self;
     _ln_h_ydata := _ln_h_ydata self; _ln_h_visible := _ln_h_visible self;
     _ln_v_xdata := _ln_v_xdata self; _ln_v_visible := _ln_v_visible self;
     _ax_v_bk := _ax_v_bk self; _ax_h_bk := _ax_h_bk self; _row := _row self;
     _col := _col self; vmin := vmin self; vmax := vmax self |}.

Definition with_im_data (v : image) (self : View) : View :=
  {| _data_dict := _data_dict self; _key_list := _key_list self;
     _limit_func := _limit_func self; _limit_args := _limit_args self;
     _active := _active self; _imdata := _imdata self; _im_data := v;
     _im_clim := _im_clim self; cur_active := cur_active self;
     _ax_h_ylim := _ax_h_ylim self; _ax_v_xlim := _ax_v_xlim self;
     _ln_h_ydata := _ln_h_ydata self; _ln_h_visible := _ln_h_visible self;
     _ln_v_xdata := _ln_v_xdata self; _ln_v_visible := _ln_v_visible self;
     _ax_v_bk := _ax_v_bk self; _ax_h_bk := _ax_h_bk self; _row := _row self;
     _col := _col self; vmin := vmin self; vmax := vmax self |}.

Definition with_im_clim (v : option climits) (self : View) : View :=
  {| _data_dict := _data_dict self; _key_list := _key_list self;
     _limit_func := _limit_func self; _limit_args := _limit_args self;
     _active := _active self; _imdata := _imdata self;
     _im_data := _im_data self; _im_clim := v; cur_active := cur_active self;
     _ax_h_ylim := _ax_h_ylim self; _ax_v_xlim := _ax_v_xlim self;
     _ln_h_ydata := _ln_h_ydata self; _ln_h_visible := _ln_h_visible self;
     _ln_v_xdata := _ln_v_xdata self; _ln_v_visible := _ln_v_visible self;
     _ax_v_bk := _ax_v_bk self; _ax_h_bk := _ax_h_bk self; _row := _row self;
     _col := _col self; vmin := vmin self; vmax := vmax self |}.

Definition with_cur_active (v : bool) (self : View) : View :=
  {| _data_dict := _data_dict self; _key_list := _key_list self;
     _limit_func := _limit_func self; _limit_args := _limit_args self;
     _active := _active self; _imdata := _imdata self;
     _im_data := _im_data self; _im_clim := _im_clim self; cur_active := v;
     _ax_h_ylim := _ax_h_ylim self; _ax_v_xlim := _ax_v_xlim self;
     _ln_h_ydata := _ln_h_ydata self; _ln_h_visible := _ln_h_visible self;
     _ln_v_xdata := _ln_v_xdata self; _ln_v_visible := _ln_v_visible self;
     _ax_v_bk := _ax_v_bk self; _ax_h_bk := _ax_h_bk self; _row := _row self;
     _col := _col self; vmin := vmin self; vmax := vmax self |}.

Definition with_ax_h_ylim (v : climits) (self : View) : View :=
  {| _data_dict := _data_dict self; _key_list := _key_list self;
     _limit_func := _limit_func self; _limit_args := _limit_args self;
     _active := _active self; _imdata := _imdata self;
     _im_data := _im_data self; _im_clim := _im_clim self;
     cur_active := cur_active self; _ax_h_ylim := v;
     _ax_v_xlim := _ax_v_xlim self; _ln_h_ydata := _ln_h_ydata self;
     _ln_h_visible := _ln_h_visible self; _ln_v_xdata := _ln_v_xdata self;
     _ln_v_visible := _ln_v_visible self; _ax_v_bk := _ax_v_bk self;
     _ax_h_bk := _ax_h_bk self; _row := _row self; _col := _col self;
     vmin := vmin self; vmax := vmax self |}.

Definition with_ax_v_xlim (v : climits) (self : View) : View :=
  {| _data_dict := _data_dict self; _key_list := _key_list self;
     _limit_func := _limit_func self; _limit_args := _limit_args self;
     _active := _active self; _imdata := _imdata self;
     _im_data := _im_data self; _im_clim := _im_clim self;
     cur_active := cur_active self; _ax_h_ylim := _ax_h_ylim self;
     _ax_v_xlim := v; _ln_h_ydata := _ln_h_ydata self;
     _ln_h_visible := _ln_h_visible self; _ln_v_xdata := _ln_v_xdata self;
     _ln_v_visible := _ln_v_visible self; _ax_v_bk := _ax_v_bk self;
     _ax_h_bk := _ax_h_bk self; _row := _row self; _col := _col self;
     vmin := vmin self; vmax := vmax self |}.

Definition with_ln_h_ydata (v : list Qc) (self : View) : View :=
  {| _data_dict := _data_dict self; _key_list := _key_list self;
     _limit_func := _limit_func self; _limit_args := _limit_args self;
     _active := _active self; _imdata := _imdata self;
     _im_data := _im_data self; _im_clim := _im_clim self;
     cur_active := cur_active self; _ax_h_ylim := _ax_h_ylim self;
     _ax_v_xlim := _ax_v_xlim self; _ln_h_ydata := v;
     _ln_h_visible := _ln_h_visible self; _ln_v_xdata := _ln_v_xdata self;
     _ln_v_visible := _ln_v_visible self; _ax_v_bk := _ax_v_bk self;
     _ax_h_bk := _ax_h_bk self; _row := _row self; _col := _col self;
     vmin := vmin self; vmax := vmax self |}.

Definition with_ln_h_visible (v : bool) (self : View) : View :=
  {| _data_dict := _data_dict self; _key_list := _key_list self;
     _limit_func := _limit_func self; _limit_args := _limit_args self;
     _active := _active self; _imdata := _imdata self;
     _im_data := _im_data self; _im_clim := _im_clim self;
     cur_active := cur_active self; _ax_h_ylim := _ax_h_ylim self;
     _ax_v_xlim := _ax_v_xlim self; _ln_h_ydata := _ln_h_ydata self;
     _ln_h_visible := v; _ln_v_xdata := _ln_v_xdata self;
     _ln_v_visible := _ln_v_visible self; _ax_v_bk := _ax_v_bk self;
     _ax_h_bk := _ax_h_bk self; _row := _row self; _col := _col self;
     vmin := vmin self; vmax := vmax self |}.

Definition with_ln_v_xdata (v : list Qc) (self : View) : View :=
  {| _data_dict := _data_dict self; _key_list := _key_list self;
     _limit_func := _limit_func self; _limit_args := _limit_args self;
     _active := _active self; _imdata := _imdata self;
     _im_data := _im_data self; _im_clim := _im_clim self;
     cur_active := cur_active self; _ax_h_ylim := _ax_h_ylim self;
     _ax_v_xlim := _ax_v_xlim self; _ln_h_ydata := _ln_h_ydata self;
     _ln_h_visible := _ln_h_visible self; _ln_v_xdata := v;
     _ln_v_visible := _ln_v_visible self; _ax_v_bk := _ax_v_bk self;
     _ax_h_bk := _ax_h_bk self; _row := _row self; _col := _col self;
     vmin := vmin self; vmax := vmax self |}.

Definition with_ln_v_visible (v : bool) (self : View) : View :=
  {| _data_dict := _data_dict self; _key_list := _key_list self;
     _limit_func := _limit_func self; _limit_args := _limit_args self;
     _active := _active self; _imdata := _imdata self;
     _im_data := _im_data self; _im_clim := _im_clim self;
     cur_active := cur_active self; _ax_h_ylim := _ax_h_ylim self;
     _ax_v_xlim := _ax_v_xlim self; _ln_h_ydata := _ln_h_ydata self;
     _ln_h_visible := _ln_h_visible self; _ln_v_xdata := _ln_v_xdata self;
     _ln_v_visible := v; _ax_v_bk := _ax_v_bk self;
     _ax_h_bk := _ax_h_bk self; _row := _row self; _col := _col self;
     vmin := vmin self; vmax := vmax self |}.

Definition with_ax_v_bk (v : option region) (self : View) : View :=
  {| _data_dict := _data_dict self; _key_list := _key_list self;
     _limit_func := _limit_func self; _limit_args := _limit_args self;
     _active := _active self; _imdata := _imdata self;
     _im_data := _im_data self; _im_clim := _im_clim self;
     cur_active := cur_active self; _ax_h_ylim := _ax_h_ylim self;
     _ax_v_xlim := _ax_v_xlim self; _ln_h_ydata := _ln_h_ydata self;
     _ln_h_visible := _ln_h_visible self; _ln_v_xdata := _ln_v_xdata self;
     _ln_v_visible := _ln_v_visible self; _ax_v_bk := v;
     _ax_h_bk := _ax_h_bk self; _row := _row self; _col := _col self;
     vmin := vmin self; vmax := vmax self |}.

Definition with_ax_h_bk (v : option region) (self : View) : View :=
  {| _data_dict := _data_dict self; _key_list := _key_list self;
     _limit_func := _limit_func self; _limit_args := _limit_args self;
     _active := _active self; _imdata := _imdata self;
     _im_data := _im_data self; _im_clim := _im_clim self;
     cur_active := cur_active self; _ax_h_ylim := _ax_h_ylim self;
     _ax_v_xlim := _ax_v_xlim self; _ln_h_ydata := _ln_h_ydata self;
     _ln_h_visible := _ln_h_visible self; _ln_v_xdata := _ln_v_xdata self;
     _ln_v_visible := _ln_v_visible self; _ax_v_bk := _ax_v_bk self;
     _ax_h_bk := v; _row := _row self; _col := _col self; vmin := vmin self;
     vmax := vmax self |}.

Definition with_row (v : option Z) (self : View) : View :=
  {| _data_dict := _data_dict self; _key_list := _key_list self;
     _limit_func := _limit_func self; _limit_args := _limit_args self;
     _active := _active self; _imdata := _imdata self;
     _im_data := _im_data self; _im_clim := _im_clim self;
     cur_active := cur_active self; _ax_h_ylim := _ax_h_ylim self;
     _ax_v_xlim := _ax_v_xlim self; _ln_h_ydata := _ln_h_ydata self;
     _ln_h_visible := _ln_h_visible self; _ln_v_xdata := _ln_v_xdata self;
     _ln_v_visible := _ln_v_visible self; _ax_v_bk := _ax_v_bk self;
     _ax_h_bk := _ax_h_bk self; _row := v; _col := _col self;
     vmin := vmin self; vmax := vmax self |}.

Definition with_col (v : option Z) (self : View) : View :=
  {| _data_dict := _data_dict self; _key_list := _key_list self;
     _limit_func := _limit_func self; _limit_args := _limit_args self;
     _active := _active self; _imdata := _imdata self;
     _im_data := _im_data self; _im_clim := _im_clim self;
     cur_active := cur_active self; _ax_h_ylim := _ax_h_ylim self;
     _ax_v_xlim := _ax_v_xlim self; _ln_h_ydata := _ln_h_ydata self;
     _ln_h_visible := _ln_h_visible self; _ln_v_xdata := _ln_v_xdata self;
     _ln_v_visible := _ln_v_visible self; _ax_v_bk := _ax_v_bk self;
     _ax_h_bk := _ax_h_bk self; _row := _row self; _col := v;
     vmin := vmin self; vmax := vmax self |}.

Definition with_vmin (v : option Qc) (self : View) : View :=
  {| _data_dict := _data_dict self; _key_list := _key_list self;
     _limit_func := _limit_func self; _limit_args := _limit_args self;
     _active := _active self; _imdata := _imdata self;
     _im_data := _im_data self; _im_clim := _im_clim self;
     cur_active := cur_active self; _ax_h_ylim := _ax_h_ylim self;
     _ax_v_xlim := _ax_v_xlim self; _ln_h_ydata := _ln_h_ydata self;
     _ln_h_visible := _ln_h_visible self; _ln_v_xdata := _ln_v_xdata self;
     _ln_v_visible := _ln_v_visible self; _ax_v_bk := _ax_v_bk self;
     _ax_h_bk := _ax_h_bk self; _row := _row self; _col := _col self;
     vmin := v; vmax := vmax self |}.

Definition with_vmax (v : option Qc) (self : View) : View :=
  {| _data_dict := _data_dict self; _key_list := _key_list self;
     _limit_func := _limit_func self; _limit_args := _limit_args self;
     _active := _active self; _imdata := _imdata self;
     _im_data := _im_data self; _im_clim := _im_clim self;
     cur_active := cur_active self; _ax_h_ylim := _ax_h_ylim self;
     _ax_v_xlim := _ax_v_xlim self; _ln_h_ydata := _ln_h_ydata self;
     _ln_h_visible := _ln_h_visible self; _ln_v_xdata := _ln_v_xdata self;
     _ln_v_visible := _ln_v_visible self; _ax_v_bk := _ax_v_bk self;
     _ax_h_bk := _ax_h_bk self; _row := _row self; _col := _col self;
     vmin := vmin self; vmax := v |}.

(** ** State and exceptions of the methods

    A method runs on [self] and either returns or raises; in both cases the
    assignments it has made so far stay. *)

Definition ViewM (A : Type) : Type := View → result A * View.

Definition ret {A} (a : A) : ViewM A := λ self, (Ok a, self).

Definition bind {A B} (m : ViewM A) (k : A → ViewM B) : ViewM B :=
  λ self, match m self with
          | (Ok a, self') => k a self'
          | (Raise e, self') => (Raise e, self')
          end.

(** Reading an attribute of [self]. *)
Definition attr {A} (field : View → A) : ViewM A := λ self, (Ok (field self), self).

(** Assigning an attribute of [self]. *)
Definition assign {A} (setter : A → View → View) (v : A) : ViewM unit :=
  λ self, (Ok tt, setter v self).

(** Evaluating an expression that may raise and changes nothing. *)
Definition eval {A} (r : result A) : ViewM A := λ self, (r, self).

Declare Scope view_scope.
Delimit Scope view_scope with view.
Notation "x <- m ;; k" := (bind m (λ x, k))
  (at level 100, m at next level, right associativity) : view_scope.
Notation "m ;; k" := (bind m (λ _, k))
  (at level 100, right associativity) : view_scope.

(** ** Python indexing *)

(** [l[i]] on a list: a negative index counts from the end, an index out of
    range raises [IndexError]. *)
Definition list_getitem {A} (l : list A) (i : Z) : result A :=
  let n := Z.of_nat (length l) in
  let j := if decide (i < 0)%Z then (i + n)%Z else i in
  if decide (0 ≤ j)%Z then
    match l !! Z.to_nat j with
    | Some x => Ok x
    | None => Raise IndexError
    end
  else Raise IndexError.

(** [d[k]] on a dict: a missing key raises [KeyError]. *)
Definition dict_getitem (d : gmap string image) (k : string) : result image :=
  match d !! k with
  | Some v => Ok v
  | None => Raise KeyError
  end.

(** [int(x)]: truncation towards zero. *)
Definition py_int (x : Qc) : Z := Z.quot (Qnum x) (Zpos (Qden x)).

Definition half : Qc := Q2Qc (1 # 2).

(** [vlim[::-1]] on a pair *)
Definition reversed (vlim : climits) : climits := (vlim.2, vlim.1).

(** [np.zeros(n)] *)
Definition np_zeros (n : nat) : list Qc := replicate n 0.

(** ** Methods and callbacks of [CrossSection2DView] *)

Local Open Scope view_scope.

(** The draw event of the canvas. *)
Inductive DrawEvent : Type := draw_event.

Definition clear (event : DrawEvent) : ViewM unit :=
  xlim <- attr _ax_v_xlim ;;
  assign with_ax_v_bk (Some (Region xlim)) ;;
  ylim <- attr _ax_h_ylim ;;
  assign with_ax_h_bk (Some (Region ylim)) ;;
  assign with_ln_h_visible false ;;
  assign with_ln_v_visible false.

(** Modelled from the spec: the base classes [AbstractDataView2D] and
    [AbstractMPLDataView] are imported from the enclosing packages and are
    not part of this module.  Following the data model ("a mapping from key
    to 2D numeric array"), their initialiser stores the images under their
    keys, a later pair replacing an earlier one with the same key, and keeps
    the key list. *)
Definition AbstractDataView2D_init (data_list : list image)
    (key_list : list string) : gmap string image * list string :=
  (foldl (λ d kv, <[kv.1 := kv.2]> d) ∅ (zip key_list data_list), key_list).

Definition __init__ (data_list : list image) (key_list : list string)
    (limit_func : option limit_fn) (limit_args : option params)
    : result View :=
  let '(data_dict, keys) := AbstractDataView2D_init data_list key_list in
  (* set some default behavior *)
  let limit_func := default (returns _full_range) limit_func in
  let limit_args := default (0, hundred) limit_args in
  result_bind (list_getitem key_list 0) (λ k0,
  result_bind (dict_getitem data_dict k0) (λ init_image,
  result_bind (limit_func init_image limit_args) (λ vlim,
  let self :=
    {| _data_dict := data_dict; _key_list := keys;
       _limit_func := limit_func; _limit_args := limit_args;
       _active := true;
       _imdata := init_image;
       _im_data := init_image; _im_clim := None;
       cur_active := true;
       _ax_h_ylim := vlim;
       _ax_v_xlim := vlim;
       _ln_v_xdata := np_zeros (shape init_image).1; _ln_v_visible := false;
       _ln_h_ydata := np_zeros (shape init_image).2; _ln_h_visible := false;
       _ax_v_bk := None; _ax_h_bk := None;
       _row := None; _col := None;
       vmin := None; vmax := None |} in
  (* [self._fig.canvas.draw()] emits the draw event, which runs [clear] *)
  Ok (clear draw_event self).2))).

(** The status-bar text, kept as its content rather than as a string. *)
Inductive coord_text : Type :=
| XYI (x y : Z) (i : Qc)   (* "X: {x:d} Y: {y:d} I: {i:.2f}" *)
| XY (x y : Z).            (* "X: {x:d} Y: {y:d}" *)

Definition inside (numrows numcols : nat) (row col : Z) : bool :=
  bool_decide (0 ≤ col)%Z && bool_decide (col < Z.of_nat numcols)%Z &&
  bool_decide (0 ≤ row)%Z && bool_decide (row < Z.of_nat numrows)%Z.

Definition format_coord (x y : Qc) : ViewM coord_text :=
  imdata <- attr _imdata ;;
  let '(numrows, numcols) := shape imdata in
  let col := py_int (x + half) in
  let row := py_int (y + half) in
  if inside numrows numcols row col then
    z <- eval (getitem imdata (Z.to_nat row) (Z.to_nat col)) ;;
    ret (XYI col row z)
  else
    ret (XY col row).

Definition move_cb (event : MouseEvent) : ViewM unit :=
  active <- attr _active ;;
  if negb active then ret tt else
  (* short circuit on other axes *)
  if negb (bool_decide (inaxes event = Some ImAx)) then ret tt else
  imdata <- attr _imdata ;;
  let '(numrows, numcols) := shape imdata in
  match xdata event, ydata event with
  | Some x, Some y =>
      assign with_ln_h_visible true ;;
      assign with_ln_v_visible true ;;
      let col := py_int (x + half) in
      let row := py_int (y + half) in
      row0 <- attr _row ;;
      col0 <- attr _col ;;
      if negb (bool_decide (row0 = Some row))
         || negb (bool_decide (col0 = Some col)) then
        if inside numrows numcols row col then
          assign with_col (Some col) ;;
          assign with_row (Some row) ;;
          imdata <- attr _imdata ;;
          let data_h := row_slice imdata (Z.to_nat row) in
          let data_v := col_slice imdata (Z.to_nat col) in
          (* restore_region, draw_artist and blit act on the canvas only *)
          assign with_ln_h_ydata data_h ;;
          assign with_ln_v_xdata data_v
        else ret tt
      else ret tt
  | _, _ => ret tt
  end.

(** The [active] property. *)
Definition active : ViewM bool := attr _active.

Definition active_setter (val : bool) : ViewM unit :=
  assign with_active val ;;
  assign with_cur_active val.

(** [Cursor.onmove] repositions the cursor lines of the toolkit widget; none
    of the attributes kept in [View] is involved. *)
Definition cur_onmove (event : MouseEvent) : ViewM unit := ret tt.

Definition click_cb (event : MouseEvent) : ViewM unit :=
  if negb (bool_decide (inaxes event = Some ImAx)) then ret tt else
  a <- active ;;
  active_setter (negb a) ;;
  a' <- active ;;
  if a' then
    cur_onmove event ;;
    move_cb event
  else ret tt.

Definition update_image (img_idx : Z) : ViewM unit :=
  data_dict <- attr _data_dict ;;
  key_list <- attr _key_list ;;
  k <- eval (list_getitem key_list img_idx) ;;
  img <- eval (dict_getitem data_dict k) ;;
  assign with_imdata img.

Definition update_color_limits (new_limits : params) (force_update : bool)
    : ViewM unit :=
  limit_args <- attr _limit_args ;;
  (* if the limits have not really changed, short-circuit *)
  if negb force_update && bool_decide (limit_args = new_limits) then ret tt
  else
    (* assign the new limits *)
    assign with_limit_args new_limits ;;
    (* convert limits -> args for clim *)
    limit_func <- attr _limit_func ;;
    imdata <- attr _imdata ;;
    limit_args <- attr _limit_args ;;
    vlim <- eval (limit_func imdata limit_args) ;;
    (* set the color limits *)
    assign with_im_clim (Some vlim) ;;
    (* set the cross section axes limits *)
    assign with_ax_v_xlim (reversed vlim) ;;
    assign with_ax_h_ylim vlim.

(** The colormap is toolkit state that the model does not represent. *)
Definition update_cmap : ViewM unit := ret tt.

(** The normalisation is toolkit state that the model does not represent;
    what remains is the forced update of the color limits. *)
Definition update_norm : ViewM unit :=
  limit_args <- attr _limit_args ;;
  update_color_limits limit_args true.

Definition replot : ViewM unit :=
  limit_func <- attr _limit_func ;;
  imdata <- attr _imdata ;;
  limit_args <- attr _limit_args ;;
  v <- eval (limit_func imdata limit_args) ;;
  assign with_vmin (Some v.1) ;;
  assign with_vmax (Some v.2) ;;
  (* set vertical box axes *)
  assign with_ax_v_xlim (v.1, v.2) ;;
  (* set horizontal box axes *)
  assign with_ax_h_ylim (v.1, v.2) ;;
  imdata <- attr _imdata ;;
  assign with_im_data imdata ;;
  limit_args <- attr _limit_args ;;
  update_color_limits limit_args true.

Definition set_limit_func (limit_func : limit_fn) (new_limits : params)
    : ViewM unit :=
  (* set the new function to use for computing the color limits *)
  assign with_limit_func limit_func ;;
  (* update the axes *)
  update_color_limits new_limits true.

Local Close Scope view_scope.

(** * Vocabulary of the specification *)

(** [m] is the least (greatest) of the values [xs]. *)
Definition is_minimum (xs : list Qc) (m : Qc) : Prop :=
  m ∈ xs ∧ ∀ x, x ∈ xs → m ≤ x.
Definition is_maximum (xs : list Qc) (m : Qc) : Prop :=
  m ∈ xs ∧ ∀ x, x ∈ xs → x ≤ m.

(** The order statistics of [xs]: its values in ascending order. *)
Definition order_statistics (xs s : list Qc) : Prop :=
  Sorted Qcle s ∧ s ≡ₚ xs.

(** The position of rank [p] among [n] order statistics numbered from 0. *)
Definition fractional_index (n : nat) (p : Qc) : Qc :=
  p / hundred * Qc_of_Z (Z.of_nat n - 1).

(** [v] is the [p]-th percentile of [xs] under linear interpolation between
    order statistics: with [h] the fractional index of [p] and [k] its
    integer part, [v] lies at the fraction [h - k] of the way from the
    [k]-th order statistic to the next one (to itself at the top end). *)
Definition percentile_value (xs : list Qc) (p v : Qc) : Prop :=
  ∃ s (k : nat) (x_k x_k1 : Qc),
    order_statistics xs s ∧
    Qc_of_Z (Z.of_nat k) ≤ fractional_index (length xs) p ∧
    fractional_index (length xs) p < Qc_of_Z (Z.of_nat k + 1) ∧
    s !! k = Some x_k ∧
    x_k1 = default x_k (s !! (k + 1)%nat) ∧
    v = x_k + (fractional_index (length xs) p - Qc_of_Z (Z.of_nat k))
              * (x_k1 - x_k).

(** Both side panels show the pair the limit function gives for the current
    image and parameters. *)
Definition side_panels_track (self : View) : Prop :=
  ∃ v, _limit_func self (_imdata self) (_limit_args self) = Ok v ∧
       _ax_v_xlim self = v ∧ _ax_h_ylim self = v.

(** Both side panels span the two values the limit function gives for the
    current image and parameters: the horizontal cut as (low, high), the
    vertical cut in either orientation. *)
Definition side_panels_follow (self : View) : Prop :=
  ∃ v, _limit_func self (_imdata self) (_limit_args self) = Ok v ∧
       (_ax_v_xlim self = v ∨ _ax_v_xlim self = reversed v) ∧
       _ax_h_ylim self = v.

(** The side panels as [update_color_limits] leaves them: the horizontal cut
    shows the pair, the vertical cut shows it reversed. *)
Definition side_panels_updated (self : View) : Prop :=
  ∃ v, _limit_func self (_imdata self) (_limit_args self) = Ok v ∧
       _ax_v_xlim self = reversed v ∧ _ax_h_ylim self = v.

(** The view state of the data model: current image, limit parameters,
    active flag, last-hovered cell and the two saved panel backgrounds. *)
Definition view_state (self : View)
    : image * params * bool * (option Z * option Z)
      * (option region * option region) :=
  (_imdata self, _limit_args self, _active self, (_row self, _col self),
   (_ax_h_bk self, _ax_v_bk self)).

(** The cell [(row, col)] a mouse event points at, when it carries
    coordinates. *)
Definition event_cell (event : MouseEvent) : option (Z * Z) :=
  match xdata event, ydata event with
  | Some x, Some y => Some (py_int (y + half), py_int (x + half))
  | _, _ => None
  end.

(** A cell outside the bounds of an image. *)
Definition outside (a : image) (row col : Z) : Prop :=
  (row < 0 ∨ Z.of_nat (numrows a) ≤ row ∨
   col < 0 ∨ Z.of_nat (numcols a) ≤ col)%Z.

(** ** Sample data *)

Definition frame_a : image :=
  Image 2 2 [Qc_of_Z 3; Qc_of_Z 1; Qc_of_Z 4; Qc_of_Z 2].

Definition frame_b : image :=
  Image 2 2 [Qc_of_Z 5; Qc_of_Z 8; Qc_of_Z 7; Qc_of_Z 6].

(** The view built from the two frames under the keys "a" and "b", with the
    default limit function and parameters. *)
Definition demo_view : View :=
  {| _data_dict := <["b"%string := frame_b]> (<["a"%string := frame_a]> ∅);
     _key_list := ["a"; "b"]%string;
     _limit_func := returns _full_range;
     _limit_args := (0, hundred);
     _active := true;
     _imdata := frame_a;
     _im_data := frame_a; _im_clim := None;
     cur_active := true;
     _ax_h_ylim := (Qc_of_Z 1, Qc_of_Z 4);
     _ax_v_xlim := (Qc_of_Z 1, Qc_of_Z 4);
     _ln_h_ydata := [0; 0]; _ln_h_visible := false;
     _ln_v_xdata := [0; 0]; _ln_v_visible := false;
     _ax_v_bk := Some (Region (Qc_of_Z 1, Qc_of_Z 4));
     _ax_h_bk := Some (Region (Qc_of_Z 1, Qc_of_Z 4));
     _row := None; _col := None;
     vmin := None; vmax := None |}.

(** A mouse event over the main image at data coordinates [(x, y)]. *)
Definition hover (x y : Qc) : MouseEvent :=
  {| inaxes := Some ImAx; xdata := Some x; ydata := Some y |}.

(** ** The operations on a view *)

(** What the toolkit and the owner of a view can do with it once it is
    built: deliver a mouse or draw event, assign the [active] property, or
    call one of the public methods. *)
Inductive operation : Type :=
| Move (event : MouseEvent)
| Click (event : MouseEvent)
| Draw
| SetActive (val : bool)
| UpdateCmap
| UpdateImage (img_idx : Z)
| Replot
| UpdateNorm
| UpdateColorLimits (new_limits : params) (force_update : bool)
| SetLimitFunc (limit_func : limit_fn) (new_limits : params).

Definition run_operation (op : operation) : ViewM unit :=
  match op with
  | Move event => move_cb event
  | Click event => click_cb event
  | Draw => clear draw_event
  | SetActive val => active_setter val
  | UpdateCmap => update_cmap
  | UpdateImage img_idx => update_image img_idx
  | Replot => replot
  | UpdateNorm => update_norm
  | UpdateColorLimits new_limits force_update =>
      update_color_limits new_limits force_update
  | SetLimitFunc limit_func new_limits => set_limit_func limit_func new_limits
  end.

(** The views a program can hold: built by the constructor, then subjected
    to operations.  An operation that raises leaves the view as it was when
    the exception left the method, and the event loop goes on. *)
Inductive reachable : View → Prop :=
| reachable_init data_list key_list limit_func limit_args self :
    __init__ data_list key_list limit_func limit_args = Ok self →
    reachable self
| reachable_step self op :
    reachable self → reachable (run_operation op self).2.

(** All pixels of an image have the same value. *)
Definition constant_image (a : image) (c : Qc) : Prop :=
  ∀ x, x ∈ pix a → x = c.

(** The pixel of a well-shaped image at a cell, if the cell exists. *)
Definition pixel (a : image) (row col : nat) : option Qc :=
  if decide (row < numrows a ∧ col < numcols a)%nat
  then pix a !! (row * numcols a + col)%nat else None.

(** Running a sequence of operations, one after the other. *)
Definition run_operations (ops : list operation) (self : View) : View :=
  foldl (λ s op, (run_operation op s).2) self ops.

(** The events the toolkit delivers, as opposed to the calls of the owner. *)
Definition toolkit_event (op : operation) : Prop :=
  match op with
  | Move _ | Click _ | Draw => True
  | _ => False
  end.

(** What the owner of a view controls through its methods: the image set,
    the current and the displayed image, the limit function and parameters,
    and the limits derived from them. *)
Definition plot_settings (self : View) :=
  (_data_dict self, _key_list self, _limit_func self, _limit_args self,
   _imdata self, _im_data self, _im_clim self,
   _ax_h_ylim self, _ax_v_xlim self, vmin self, vmax self).

(** The cursor widget is active exactly when the view is. *)
Definition flags_agree (self : View) : Prop := cur_active self = _active self.

(** The stashed cell is either absent or a cell with non-negative row and
    column. *)
Definition stash_consistent (self : View) : Prop :=
  match _row self, _col self with
  | None, None => True
  | Some row, Some col => (0 ≤ row)%Z ∧ (0 ≤ col)%Z
  | _, _ => False
  end.

(** An image is one of those stored in the image set under a listed key. *)
Definition stored_image (self : View) (a : image) : Prop :=
  ∃ k, k ∈ _key_list self ∧ _data_dict self !! k = Some a.

(** The calls of the owner that concern what is plotted. *)
Definition owner_call (op : operation) : Prop :=
  match op with
  | UpdateCmap | UpdateImage _ | Replot | UpdateNorm
  | UpdateColorLimits _ _ | SetLimitFunc _ _ => True
  | _ => False
  end.

(** What the event handlers maintain while tracking the cursor: the active
    flags, the stashed cell, the two cut lines and the saved backgrounds. *)
Definition tracking_state (self : View) :=
  (_active self, cur_active self, _row self, _col self,
   _ln_h_ydata self, _ln_v_xdata self,
   _ln_h_visible self, _ln_v_visible self,
   _ax_h_bk self, _ax_v_bk self).

(** * Checks on the sample data *)

Example full_range_frame_a :
  returns _full_range frame_a (0, hundred) = Ok (Qc_of_Z 1, Qc_of_Z 4).
Proof. reflexivity. Qed.

Example full_range_empty :
  returns _full_range (Image 0 3 []) (0, hundred) = Raise ValueError.
Proof. reflexivity. Qed.

(** [np.percentile([[3, 1], [4, 2]], (25, 100))] is [1.75, 4.0]. *)
Example percentile_frame_a :
  returns _percentile_limit frame_a (Qc_of_Z 25, hundred)
    = Ok (Q2Qc (7 # 4), Qc_of_Z 4).
Proof. vm_compute. do 2 f_equal; by apply Qc_is_canon. Qed.

Example percentile_rank_out_of_range :
  returns _percentile_limit frame_a (0, Qc_of_Z 101) = Raise ValueError.
Proof. by vm_compute. Qed.

(** [int(-0.7 + 0.5)] is [0], [int(-1.7 + 0.5)] is [-1], [int(1.7 + 0.5)]
    is [2]. *)
Example py_int_rounding :
  py_int (Q2Qc (-7 # 10) + half) = 0%Z ∧
  py_int (Q2Qc (-17 # 10) + half) = (-1)%Z ∧
  py_int (Q2Qc (17 # 10) + half) = 2%Z.
Proof. by vm_compute. Qed.

Example keys_from_the_end :
  list_getitem ["a"; "b"]%string (-1) = Ok "b"%string ∧
  list_getitem ["a"; "b"]%string 2 = Raise IndexError ∧
  list_getitem ["a"; "b"]%string (-3) = Raise IndexError.
Proof. by vm_compute. Qed.

(** Hovering over the cell in row 1, column 0 of the sample view stashes the
    cell and loads row 1 and column 0 into the two cut lines. *)
Example hover_inside :
  let self := (move_cb (hover 0 1) demo_view).2 in
  _row self = Some 1%Z ∧ _col self = Some 0%Z ∧
  _ln_h_ydata self = [Qc_of_Z 4; Qc_of_Z 2] ∧
  _ln_v_xdata self = [Qc_of_Z 3; Qc_of_Z 4].
Proof. by vm_compute. Qed.

(** * Properties of the limit functions *)

Section LimitFunctions.

Implicit Types (xs s : list Qc) (p v : Qc).

Lemma Qc_min_case x y :
  (Qc_min x y = x ∧ x ≤ y) ∨ (Qc_min x y = y ∧ y ≤ x).
Proof.
  unfold Qc_min. destruct (decide (x ≤ y)) as [Hle|Hnle]; [by left|right].
  split; [done|]. destruct (total Qcle x y); [done|assumption].
Qed.

Lemma Qc_max_case x y :
  (Qc_max x y = y ∧ x ≤ y) ∨ (Qc_max x y = x ∧ y ≤ x).
Proof.
  unfold Qc_max. destruct (decide (x ≤ y)) as [Hle|Hnle]; [by left|right].
  split; [done|]. destruct (total Qcle x y); [done|assumption].
Qed.

Lemma foldl_Qc_min_minimum xs x : is_minimum (x :: xs) (foldl Qc_min x xs).
Proof.
  revert x. induction xs as [|y xs IH]; intros x; simpl.
  - split; [by left|]. intros z ->%list_elem_of_singleton. apply Qcle_refl.
  - destruct (IH (Qc_min x y)) as [Hin Hle].
    assert (Hxy : Qc_min x y ≤ x ∧ Qc_min x y ≤ y).
    { destruct (Qc_min_case x y) as [[-> ?]|[-> ?]];
        split; (done || apply Qcle_refl). }
    split.
    + apply elem_of_cons in Hin as [->|Hin].
      * destruct (Qc_min_case x y) as [[-> _]|[-> _]];
          [by left | by right; left].
      * by do 2 right.
    + intros z Hz. apply elem_of_cons in Hz as [->|Hz].
      * eapply Qcle_trans; [apply Hle; by left | apply Hxy].
      * apply elem_of_cons in Hz as [->|Hz].
        -- eapply Qcle_trans; [apply Hle; by left | apply Hxy].
        -- apply Hle. by right.
Qed.

Lemma foldl_Qc_max_maximum xs x : is_maximum (x :: xs) (foldl Qc_max x xs).
Proof.
  revert x. induction xs as [|y xs IH]; intros x; simpl.
  - split; [by left|]. intros z ->%list_elem_of_singleton. apply Qcle_refl.
  - destruct (IH (Qc_max x y)) as [Hin Hle].
    assert (Hxy : x ≤ Qc_max x y ∧ y ≤ Qc_max x y).
    { destruct (Qc_max_case x y) as [[-> ?]|[-> ?]];
        split; (done || apply Qcle_refl). }
    split.
    + apply elem_of_cons in Hin as [->|Hin].
      * destruct (Qc_max_case x y) as [[-> _]|[-> _]];
          [by right; left | by left].
      * by do 2 right.
    + intros z Hz. apply elem_of_cons in Hz as [->|Hz].
      * eapply Qcle_trans; [apply Hxy | apply Hle; by left].
      * apply elem_of_cons in Hz as [->|Hz].
        -- eapply Qcle_trans; [apply Hxy | apply Hle; by left].
        -- apply Hle. by right.
Qed.

Lemma np_min_minimum (a : image) :
  pix a ≠ [] → ∃ m, np_min a = Ok m ∧ is_minimum (pix a) m.
Proof.
  unfold np_min. destruct (pix a) as [|x xs]; [done|]. intros _.
  eexists; split; [done|]. apply foldl_Qc_min_minimum.
Qed.

Lemma np_max_maximum (a : image) :
  pix a ≠ [] → ∃ m, np_max a = Ok m ∧ is_maximum (pix a) m.
Proof.
  unfold np_max. destruct (pix a) as [|x xs]; [done|]. intros _.
  eexists; split; [done|]. apply foldl_Qc_max_maximum.
Qed.

(** The value of [_full_range] in terms of the two reductions. *)
Lemma returns_full_range {P} (i : image) (l : P) :
  returns _full_range i l =
    result_bind (np_min i) (λ lo,
    result_bind (np_max i) (λ hi, Ok (lo, hi))).
Proof.
  unfold returns, _full_range, lbind, arg, numpy_call, lret; simpl.
  destruct (np_min i); simpl; [|done]. by destruct (np_max i).
Qed.

Lemma returns_absolute_limit (i : image) (l : params) :
  returns _absolute_limit i l = Ok l.
Proof. done. Qed.

Lemma returns_percentile_limit (i : image) (l : params) :
  returns _percentile_limit i l = np_percentile i l.
Proof. done. Qed.

(** ** Percentiles *)

Lemma lerp_weights (a b w : Qc) : a * (1 - w) + b * w = a + w * (b - a).
Proof. ring. Qed.


Lemma hundred_inv_nonneg : 0 ≤ / hundred.
Proof. by vm_compute. Qed.

Lemma hundred_inv_r : hundred * / hundred = 1.
Proof. apply Qcmult_inv_r. by vm_compute. Qed.

Lemma fractional_index_bounds (n : nat) p :
  valid_rank p → (1 ≤ n)%nat →
  0 ≤ fractional_index n p ∧ fractional_index n p ≤ Qc_of_Z (Z.of_nat n - 1).
Proof.
  intros [H0 H100] Hn. unfold fractional_index, Qcdiv.
  assert (Hn0 : 0 ≤ Qc_of_Z (Z.of_nat n - 1)).
  { change (inject_Z 0 <= inject_Z (Z.of_nat n - 1))%Q.
    rewrite <-Zle_Qle. lia. }
  assert (Hq0 : 0 ≤ p * / hundred).
  { rewrite <-(Qcmult_0_l (/ hundred)).
    apply Qcmult_le_compat_r; [done | apply hundred_inv_nonneg]. }
  assert (Hq1 : p * / hundred ≤ 1).
  { rewrite <-hundred_inv_r.
    apply Qcmult_le_compat_r; [done | apply hundred_inv_nonneg]. }
  split.
  - rewrite <-(Qcmult_0_l (Qc_of_Z (Z.of_nat n - 1))).
    by apply Qcmult_le_compat_r.
  - rewrite <-(Qcmult_1_l (Qc_of_Z (Z.of_nat n - 1))) at 2.
    by apply Qcmult_le_compat_r.
Qed.

Lemma Qfloor_Qc_bounds (h : Qc) :
  Qc_of_Z (Qfloor h) ≤ h ∧ h < Qc_of_Z (Qfloor h + 1).
Proof.
  split.
  - unfold Qcle, Qc_of_Z; cbn [this]. apply Qfloor_le.
  - unfold Qclt, Qc_of_Z; cbn [this]. apply Qlt_floor.
Qed.

Lemma Qfloor_Qc_range (h : Qc) (m : Z) :
  0 ≤ h → h ≤ Qc_of_Z m → (0 ≤ Qfloor h ≤ m)%Z.
Proof.
  intros H0 Hm. split.
  - rewrite <-(Qfloor_Z 0). apply Qfloor_resp_le. exact H0.
  - rewrite <-(Qfloor_Z m). apply Qfloor_resp_le. exact Hm.
Qed.

Lemma Qc_of_Z_lt_inv (a b : Z) : Qc_of_Z a < Qc_of_Z b → (a < b)%Z.
Proof. unfold Qclt, Qc_of_Z; cbn [this]. by rewrite <-Zlt_Qlt. Qed.

Lemma floor_unique (h : Qc) (j k : Z) :
  Qc_of_Z j ≤ h → h < Qc_of_Z (j + 1) →
  Qc_of_Z k ≤ h → h < Qc_of_Z (k + 1) → j = k.
Proof.
  intros Hj Hj' Hk Hk'.
  pose proof (Qc_of_Z_lt_inv _ _ (Qcle_lt_trans _ _ _ Hj Hk')).
  pose proof (Qc_of_Z_lt_inv _ _ (Qcle_lt_trans _ _ _ Hk Hj')).
  lia.
Qed.

Lemma order_statistics_unique xs s1 s2 :
  order_statistics xs s1 → order_statistics xs s2 → s1 = s2.
Proof.
  intros [Hs1 Hp1] [Hs2 Hp2].
  apply (Sorted_unique Qcle); [done..|]. by rewrite Hp1, Hp2.
Qed.

Lemma percentile_value_unique xs p v1 v2 :
  percentile_value xs p v1 → percentile_value xs p v2 → v1 = v2.
Proof.
  intros (s1 & k1 & a1 & b1 & Hos1 & Hle1 & Hlt1 & Hk1 & Hb1 & ->)
         (s2 & k2 & a2 & b2 & Hos2 & Hle2 & Hlt2 & Hk2 & Hb2 & ->).
  rewrite (order_statistics_unique _ _ _ Hos1 Hos2) in *.
  assert (k1 = k2) as ->.
  { apply Nat2Z.inj. eapply floor_unique; eassumption. }
  congruence.
Qed.

Lemma _percentile_value xs ap p :
  order_statistics xs ap → xs ≠ [] → valid_rank p →
  ∃ v, _percentile ap p = Ok v ∧ percentile_value xs p v.
Proof.
  intros [Hsorted Hperm] Hne Hp.
  pose proof (Permutation_length Hperm) as Hlen.
  assert (Hn : (1 ≤ length xs)%nat).
  { destruct xs; [done | simpl; lia]. }
  unfold _percentile. destruct ap as [|x0 ap'] eqn:Eap; [simpl in Hlen; lia|].
  rewrite <-Eap in *. rewrite Hlen.
  fold (fractional_index (length xs) p).
  set (h := fractional_index (length xs) p).
  destruct (fractional_index_bounds (length xs) p Hp Hn) as [Hh0 Hhn].
  fold h in Hh0, Hhn.
  destruct (Qfloor_Qc_range h _ Hh0 Hhn) as [Hk0 Hkn].
  destruct (Qfloor_Qc_bounds h) as [Hfl Hfu].
  set (k := Z.to_nat (Qfloor h)).
  assert (Hk : Z.of_nat k = Qfloor h) by (unfold k; lia).
  assert (Hklt : (k < length ap)%nat) by lia.
  eexists; split; [reflexivity|].
  exists ap, k, (nth k ap x0), (nth (Nat.min (k + 1) (length xs - 1)) ap x0).
  rewrite Hk. split_and!; try done.
  - rewrite nth_lookup. by destruct (lookup_lt_is_Some_2 ap k Hklt) as [y ->].
  - destruct (decide (k + 1 ≤ length xs - 1)%nat) as [Hin|Hout].
    + rewrite Nat.min_l by done. rewrite nth_lookup.
      destruct (lookup_lt_is_Some_2 ap (k + 1)) as [y ->]; [lia|done].
    + rewrite Nat.min_r by lia.
      rewrite (lookup_ge_None_2 ap (k + 1)) by lia. simpl.
      f_equal. lia.
  - apply lerp_weights.
Qed.

Lemma np_percentile_value (a : image) (p_lo p_hi : Qc) :
  pix a ≠ [] → valid_rank p_lo → valid_rank p_hi →
  ∃ v_lo v_hi,
    np_percentile a (p_lo, p_hi) = Ok (v_lo, v_hi) ∧
    percentile_value (pix a) p_lo v_lo ∧
    percentile_value (pix a) p_hi v_hi.
Proof.
  intros Hne Hlo Hhi. unfold np_percentile; simpl.
  rewrite decide_True by done.
  assert (Hos : order_statistics (pix a) (merge_sort Qcle (pix a))).
  { split; [apply (Sorted_merge_sort Qcle) | apply merge_sort_Permutation]. }
  destruct (_percentile_value _ _ p_lo Hos Hne Hlo) as (v_lo & -> & Hvlo).
  destruct (_percentile_value _ _ p_hi Hos Hne Hhi) as (v_hi & -> & Hvhi).
  by exists v_lo, v_hi.
Qed.
End LimitFunctions.

(** ** The claims about the limit functions *)

(** C3.  For every non-empty image and any limit parameters, the full-range
    limit function returns the pair (minimum element of the image, maximum
    element of the image); the limit parameters have no effect on the
    result. *)
Theorem full_range_min_max {P : Type} (i : image) (l : P) :
  pix i ≠ [] →
  ∃ lo hi,
    returns _full_range i l = Ok (lo, hi) ∧
    is_minimum (pix i) lo ∧ is_maximum (pix i) hi ∧
    ∀ (P' : Type) (l' : P'), returns _full_range i l' = Ok (lo, hi).
Proof.
  intros Hne.
  destruct (np_min_minimum i Hne) as (lo & Hlo & Hmin).
  destruct (np_max_maximum i Hne) as (hi & Hhi & Hmax).
  exists lo, hi. split_and!; [|done|done|intros P' l'];
    by rewrite returns_full_range, Hlo, Hhi.
Qed.

Lemma full_range_min_max_witness :
  pix frame_a ≠ [] ∧
  ∃ lo hi,
    returns _full_range frame_a (0, hundred) = Ok (lo, hi) ∧
    is_minimum (pix frame_a) lo ∧ is_maximum (pix frame_a) hi ∧
    ∀ (P' : Type) (l' : P'), returns _full_range frame_a l' = Ok (lo, hi).
Proof.
  split; [discriminate | apply (full_range_min_max frame_a (0, hundred))].
  discriminate.
Defined.

(** C4.  For every image and every pair (a, b), the absolute limit function
    returns exactly (a, b), whatever the image: two images give the same
    result. *)
Theorem absolute_limit_returns_args (im1 im2 : image) (a b : Qc) :
  returns _absolute_limit im1 (a, b) = Ok (a, b) ∧
  returns _absolute_limit im2 (a, b) = Ok (a, b).
Proof. split; apply returns_absolute_limit. Qed.

(** C5.  For every non-empty image and every pair of percentile ranks in
    [0, 100], the percentile limit function returns the pair of the
    corresponding percentile values of the image's elements, under linear
    interpolation between order statistics. *)
Theorem percentile_limit_values (i : image) (p_lo p_hi : Qc) :
  pix i ≠ [] → valid_rank p_lo → valid_rank p_hi →
  ∃ v_lo v_hi,
    returns _percentile_limit i (p_lo, p_hi) = Ok (v_lo, v_hi) ∧
    percentile_value (pix i) p_lo v_lo ∧
    percentile_value (pix i) p_hi v_hi.
Proof.
  intros Hne Hlo Hhi. rewrite returns_percentile_limit.
  by apply np_percentile_value.
Qed.

Lemma percentile_limit_values_witness :
  pix frame_a ≠ [] ∧ valid_rank (Qc_of_Z 25) ∧ valid_rank hundred ∧
  ∃ v_lo v_hi,
    returns _percentile_limit frame_a (Qc_of_Z 25, hundred) = Ok (v_lo, v_hi) ∧
    percentile_value (pix frame_a) (Qc_of_Z 25) v_lo ∧
    percentile_value (pix frame_a) hundred v_hi.
Proof.
  assert (H25 : valid_rank (Qc_of_Z 25)) by (split; by vm_compute).
  assert (H100 : valid_rank hundred) by (split; by vm_compute).
  split_and!; [discriminate | exact H25 | exact H100 |].
  apply (percentile_limit_values frame_a (Qc_of_Z 25) hundred);
    [discriminate | exact H25 | exact H100].
Defined.

(** * Properties of the view *)

Section ViewMethods.

Implicit Types (self : View) (event : MouseEvent) (v : climits).

(** Unfolding the monad of the methods. *)
Ltac run := unfold bind, attr, assign, eval, ret; simpl.

(** ** [update_color_limits] *)

Lemma update_color_limits_skip self :
  update_color_limits (_limit_args self) false self = (Ok tt, self).
Proof.
  unfold update_color_limits; run. by rewrite bool_decide_eq_true_2.
Qed.

Lemma update_color_limits_run self (L : params) (force : bool) :
  force = true ∨ L ≠ _limit_args self →
  update_color_limits L force self =
    match _limit_func self (_imdata self) L with
    | Ok v =>
        (Ok tt, with_ax_h_ylim v (with_ax_v_xlim (reversed v)
                  (with_im_clim (Some v) (with_limit_args L self))))
    | Raise e => (Raise e, with_limit_args L self)
    end.
Proof.
  intros Hgo. unfold update_color_limits; run.
  assert (negb force && bool_decide (_limit_args self = L) = false) as ->.
  { destruct Hgo as [->|Hne]; [done|].
    rewrite bool_decide_eq_false_2 by congruence. by destruct force. }
  by destruct (_limit_func self (_imdata self) L).
Qed.

Lemma update_color_limits_updated self (L : params) (force : bool) v :
  force = true ∨ L ≠ _limit_args self →
  _limit_func self (_imdata self) L = Ok v →
  ∃ self', update_color_limits L force self = (Ok tt, self') ∧
           side_panels_updated self' ∧ _im_clim self' = Some v ∧
           _imdata self' = _imdata self ∧ _limit_args self' = L.
Proof.
  intros Hgo Hv. rewrite update_color_limits_run, Hv by done.
  eexists; split; [done|]. split_and!; try done.
  exists v. by simpl.
Qed.

(** ** [replot] and [set_limit_func] *)

Lemma replot_updated self v :
  _limit_func self (_imdata self) (_limit_args self) = Ok v →
  ∃ self', replot self = (Ok tt, self') ∧ side_panels_updated self' ∧
           _imdata self' = _imdata self ∧
           _limit_args self' = _limit_args self.
Proof.
  intros Hv. unfold replot; run. rewrite Hv; simpl.
  rewrite update_color_limits_run by (by left). simpl. rewrite Hv.
  eexists; split; [done|]. split_and!; try done.
  exists v. by simpl.
Qed.

Lemma set_limit_func_run self (f : limit_fn) (L : params) :
  set_limit_func f L self =
    match f (_imdata self) L with
    | Ok v =>
        (Ok tt, with_ax_h_ylim v (with_ax_v_xlim (reversed v)
                  (with_im_clim (Some v)
                     (with_limit_args L (with_limit_func f self)))))
    | Raise e => (Raise e, with_limit_args L (with_limit_func f self))
    end.
Proof.
  unfold set_limit_func; run.
  by rewrite update_color_limits_run by (by left).
Qed.

Lemma set_limit_func_updated self (f : limit_fn) (L : params) v :
  f (_imdata self) L = Ok v →
  ∃ self', set_limit_func f L self = (Ok tt, self') ∧
           side_panels_updated self'.
Proof.
  intros Hv. rewrite set_limit_func_run, Hv.
  eexists; split; [done|]. exists v. by simpl.
Qed.

(** ** The two forms of the side-panel invariant *)

Lemma track_follow self : side_panels_track self → side_panels_follow self.
Proof. intros (v & ? & ? & ?). exists v. auto. Qed.

Lemma updated_follow self : side_panels_updated self → side_panels_follow self.
Proof. intros (v & ? & ? & ?). exists v. auto. Qed.

(** ** [update_image] *)

Lemma update_image_run self (img_idx : Z) :
  update_image img_idx self =
    match result_bind (list_getitem (_key_list self) img_idx)
                      (dict_getitem (_data_dict self)) with
    | Ok img => (Ok tt, with_imdata img self)
    | Raise e => (Raise e, self)
    end.
Proof.
  unfold update_image; run.
  destruct (list_getitem (_key_list self) img_idx) as [k|e]; simpl; [|done].
  by destruct (dict_getitem (_data_dict self) k).
Qed.

Lemma with_imdata_same self : with_imdata (_imdata self) self = self.
Proof. by destruct self. Qed.

Lemma list_getitem_nat {A} (l : list A) (i : nat) x :
  l !! i = Some x → list_getitem l (Z.of_nat i) = Ok x.
Proof.
  intros Hx. unfold list_getitem.
  destruct (decide (Z.of_nat i < 0)%Z); [lia|].
  rewrite decide_True by lia. by rewrite Nat2Z.id, Hx.
Qed.

(** ** The mouse callbacks *)

Lemma inside_true (a : image) (row col : Z) :
  inside (numrows a) (numcols a) row col = true ↔ ¬ outside a row col.
Proof.
  unfold inside, outside. rewrite !andb_true_iff, !bool_decide_eq_true. lia.
Qed.

Lemma inside_false (a : image) (row col : Z) :
  outside a row col → inside (numrows a) (numcols a) row col = false.
Proof.
  intros Hout. apply not_true_is_false. by intros Hin%inside_true.
Qed.

Lemma move_cb_inactive self event :
  _active self = false → move_cb event self = (Ok tt, self).
Proof. intros Hoff. unfold move_cb; run. by rewrite Hoff. Qed.

(** What [move_cb] may touch: the two visibility flags, the stashed cell
    and the line data; it never raises. *)
Lemma move_cb_frame self event :
  ∃ hv vv row col hd vd,
    move_cb event self =
      (Ok tt, with_ln_v_xdata vd (with_ln_h_ydata hd
                (with_row row (with_col col
                   (with_ln_v_visible vv (with_ln_h_visible hv self)))))).
Proof.
  exists (_ln_h_visible (move_cb event self).2),
         (_ln_v_visible (move_cb event self).2),
         (_row (move_cb event self).2), (_col (move_cb event self).2),
         (_ln_h_ydata (move_cb event self).2),
         (_ln_v_xdata (move_cb event self).2).
  unfold move_cb; run.
  destruct (_active self) eqn:Ha; simpl; [|by destruct self; simplify_eq/=].
  destruct (bool_decide (inaxes event = Some ImAx)); simpl;
    [|by destruct self; simplify_eq/=].
  destruct (xdata event) as [x|], (ydata event) as [y|]; simpl;
    try (by destruct self; simplify_eq/=).
  destruct (negb _ || negb _); simpl; [|by destruct self; simplify_eq/=].
  destruct (inside _ _ _ _); simpl; by destruct self; simplify_eq/=.
Qed.

Lemma move_cb_outside self event (row col : Z) :
  event_cell event = Some (row, col) →
  outside (_imdata self) row col →
  move_cb event self = (Ok tt, self) ∨
  move_cb event self =
    (Ok tt, with_ln_v_visible true (with_ln_h_visible true self)).
Proof.
  unfold event_cell. intros Hcell Hout.
  destruct (xdata event) as [x|] eqn:Hx; [|done].
  destruct (ydata event) as [y|] eqn:Hy; [|done].
  simplify_eq. apply inside_false in Hout.
  unfold move_cb; run. rewrite Hx, Hy.
  destruct (_active self); simpl; [|by left].
  destruct (bool_decide (inaxes event = Some ImAx)); simpl; [|by left].
  right. simpl in Hout. rewrite Hout. by destruct (negb _ || negb _).
Qed.

Lemma format_coord_outside self (x y : Qc) :
  outside (_imdata self) (py_int (y + half)) (py_int (x + half)) →
  format_coord x y self
    = (Ok (XY (py_int (x + half)) (py_int (y + half))), self).
Proof.
  intros Hout%inside_false. unfold format_coord; run. simpl in Hout.
  by rewrite Hout.
Qed.

(** On a well-shaped image the read-out never raises. *)
Lemma getitem_inside (a : image) (row col : Z) :
  well_shaped a → inside (numrows a) (numcols a) row col = true →
  ∃ z, getitem a (Z.to_nat row) (Z.to_nat col) = Ok z.
Proof.
  unfold well_shaped, inside, getitem. intros Hlen Hin.
  rewrite !andb_true_iff, !bool_decide_eq_true in Hin.
  destruct (lookup_lt_is_Some_2 (pix a)
              (Z.to_nat row * numcols a + Z.to_nat col)) as [z ->]; [|eauto].
  rewrite Hlen. nia.
Qed.

Lemma format_coord_returns self (x y : Qc) :
  well_shaped (_imdata self) →
  ∃ text, format_coord x y self = (Ok text, self).
Proof.
  intros Hshape. unfold format_coord; run.
  destruct (inside _ _ _ _) eqn:Hin; [|eauto].
  destruct (getitem_inside _ _ _ Hshape Hin) as [z ->]. simpl. eauto.
Qed.

(** ** Construction *)

Lemma init_tracks (data_list : list image) (key_list : list string)
    (limit_func : option limit_fn) (limit_args : option params)
    (k0 : string) (img : image) v :
  key_list !! 0%nat = Some k0 →
  (AbstractDataView2D_init data_list key_list).1 !! k0 = Some img →
  default (returns _full_range) limit_func img
    (default (0, hundred) limit_args) = Ok v →
  ∃ self, __init__ data_list key_list limit_func limit_args = Ok self ∧
          _imdata self = img ∧ side_panels_track self.
Proof.
  intros Hk Himg Hv.
  pose proof (list_getitem_nat key_list 0 k0 Hk) as Hk0.
  change (Z.of_nat 0) with 0%Z in Hk0.
  unfold __init__, AbstractDataView2D_init in *.
  cbn [fst] in Himg. cbv zeta. cbn iota.
  rewrite Hk0. cbn [result_bind].
  unfold dict_getitem. rewrite Himg. cbn [result_bind].
  match goal with
  | |- context [result_bind ?r _] =>
      replace r with (Ok v : result climits) by (symmetry; exact Hv)
  end.
  cbn [result_bind]. eexists; split_and!; [done..|].
  exists v. split_and!; [exact Hv | done | done].
Qed.

End ViewMethods.

(** ** The claims about the view *)

Lemma demo_view_constructed :
  __init__ [frame_a; frame_b] ["a"; "b"]%string None None = Ok demo_view.
Proof. by vm_compute. Qed.

(** C1, as stated, fails on the view built from the two sample frames: after
    [update_image] the side panels still show the range of the previous
    image, and after an effective [update_color_limits] the vertical cut
    axes hold the pair reversed. *)
Lemma side_panels_track_broken :
  __init__ [frame_a; frame_b] ["a"; "b"]%string None None = Ok demo_view ∧
  side_panels_track demo_view ∧
  (update_image 1 demo_view).1 = Ok tt ∧
  ¬ side_panels_track (update_image 1 demo_view).2 ∧
  (update_color_limits (0, Qc_of_Z 50) false demo_view).1 = Ok tt ∧
  ¬ side_panels_track (update_color_limits (0, Qc_of_Z 50) false demo_view).2.
Proof.
  split_and!.
  - apply demo_view_constructed.
  - exists (Qc_of_Z 1, Qc_of_Z 4). by vm_compute.
  - by vm_compute.
  - intros (v & Hv & _ & Hy). vm_compute in Hv, Hy. congruence.
  - by vm_compute.
  - intros (v & Hv & Hx & _). vm_compute in Hv, Hx. congruence.
Qed.

(** C1, amended.  After construction, [replot], [set_limit_func] and an
    [update_color_limits] call that is not short-circuited, the y-limits of
    the horizontal cut axes equal the (low, high) pair the current limit
    function returns for the current image and parameters, and the x-limits
    of the vertical cut axes are made of the same two values, in one order
    or the other.  A short-circuited [update_color_limits] changes nothing,
    and [update_image] leaves both ranges as they were. *)
Theorem side_panels_after_operations :
  (∀ data_list key_list limit_func limit_args k0 img v,
     key_list !! 0%nat = Some k0 →
     (AbstractDataView2D_init data_list key_list).1 !! k0 = Some img →
     default (returns _full_range) limit_func img
       (default (0, hundred) limit_args) = Ok v →
     ∃ self, __init__ data_list key_list limit_func limit_args = Ok self ∧
             _imdata self = img ∧ side_panels_follow self) ∧
  (∀ self v,
     _limit_func self (_imdata self) (_limit_args self) = Ok v →
     ∃ self', replot self = (Ok tt, self') ∧ side_panels_follow self') ∧
  (∀ self L force v,
     force = true ∨ L ≠ _limit_args self →
     _limit_func self (_imdata self) L = Ok v →
     ∃ self', update_color_limits L force self = (Ok tt, self') ∧
              side_panels_follow self') ∧
  (∀ self f L v,
     f (_imdata self) L = Ok v →
     ∃ self', set_limit_func f L self = (Ok tt, self') ∧
              side_panels_follow self') ∧
  (∀ self, update_color_limits (_limit_args self) false self = (Ok tt, self)) ∧
  (∀ self img_idx,
     _ax_v_xlim (update_image img_idx self).2 = _ax_v_xlim self ∧
     _ax_h_ylim (update_image img_idx self).2 = _ax_h_ylim self).
Proof.
  split_and!.
  - intros data_list key_list limit_func limit_args k0 img v Hk Himg Hv.
    destruct (init_tracks _ _ _ _ _ _ _ Hk Himg Hv) as (self & ? & ? & ?).
    eauto using track_follow.
  - intros self v Hv.
    destruct (replot_updated self v Hv) as (self' & ? & ? & _).
    eauto using updated_follow.
  - intros self L force v Hgo Hv.
    destruct (update_color_limits_updated self L force v Hgo Hv)
      as (self' & ? & ? & _).
    eauto using updated_follow.
  - intros self f L v Hv.
    destruct (set_limit_func_updated self f L v Hv) as (self' & ? & ?).
    eauto using updated_follow.
  - apply update_color_limits_skip.
  - intros self img_idx. rewrite update_image_run.
    by destruct (result_bind _ _).
Qed.

Lemma side_panels_after_operations_witness :
  (∃ self, __init__ [frame_a; frame_b] ["a"; "b"]%string None None = Ok self ∧
           _imdata self = frame_a ∧ side_panels_follow self) ∧
  (∃ self', replot demo_view = (Ok tt, self') ∧ side_panels_follow self') ∧
  (∃ self', update_color_limits (0, Qc_of_Z 50) false demo_view = (Ok tt, self') ∧
            side_panels_follow self') ∧
  (∃ self', set_limit_func (returns _absolute_limit) (0, hundred) demo_view
              = (Ok tt, self') ∧ side_panels_follow self').
Proof.
  destruct side_panels_after_operations
    as (Hinit & Hreplot & Hupdate & Hset & _ & _).
  split_and!.
  - apply (Hinit [frame_a; frame_b] ["a"; "b"]%string None None
             "a"%string frame_a (Qc_of_Z 1, Qc_of_Z 4)); by vm_compute.
  - apply (Hreplot demo_view (Qc_of_Z 1, Qc_of_Z 4)). by vm_compute.
  - apply (Hupdate demo_view (0, Qc_of_Z 50) false (Qc_of_Z 1, Qc_of_Z 4)).
    + right. simpl. intros [=].
    + by vm_compute.
  - apply (Hset demo_view (returns _absolute_limit) (0, hundred) (0, hundred)).
    by vm_compute.
Defined.

(** C2.  A mouse-move event whose coordinates map to a cell outside the
    current image is ignored: the handler returns without raising, and the
    stashed last-hovered cell, the side-panel line data and the view state
    of the data model are as before.  The handler only marks the two cut
    lines visible, which it does before it tests the bounds; every other
    attribute of the view is unchanged.  The coordinate read-out likewise
    returns its text without reading a pixel. *)
Theorem move_cb_outside_ignored (self : View) (event : MouseEvent)
    (row col : Z) :
  event_cell event = Some (row, col) →
  outside (_imdata self) row col →
  (move_cb event self).1 = Ok tt ∧
  _row (move_cb event self).2 = _row self ∧
  _col (move_cb event self).2 = _col self ∧
  _ln_h_ydata (move_cb event self).2 = _ln_h_ydata self ∧
  _ln_v_xdata (move_cb event self).2 = _ln_v_xdata self ∧
  view_state (move_cb event self).2 = view_state self ∧
  with_ln_v_visible (_ln_v_visible self)
    (with_ln_h_visible (_ln_h_visible self) (move_cb event self).2) = self ∧
  ∀ x y, xdata event = Some x → ydata event = Some y →
         format_coord x y self = (Ok (XY col row), self).
Proof.
  intros Hcell Hout.
  assert (Hmove := move_cb_outside self event row col Hcell Hout).
  split_and!;
    try (destruct Hmove as [-> | ->]; by destruct self).
  intros x y Hx Hy. unfold event_cell in Hcell. rewrite Hx, Hy in Hcell.
  simplify_eq. by apply format_coord_outside.
Qed.

Lemma move_cb_outside_ignored_witness :
  event_cell (hover (Qc_of_Z 5) 0) = Some (0, 5)%Z ∧
  outside (_imdata demo_view) 0 5 ∧
  (move_cb (hover (Qc_of_Z 5) 0) demo_view).1 = Ok tt ∧
  _row (move_cb (hover (Qc_of_Z 5) 0) demo_view).2 = None ∧
  _col (move_cb (hover (Qc_of_Z 5) 0) demo_view).2 = None.
Proof.
  assert (Hcell : event_cell (hover (Qc_of_Z 5) 0) = Some (0, 5)%Z)
    by (by vm_compute).
  assert (Hout : outside (_imdata demo_view) 0 5)
    by (unfold outside; simpl; lia).
  destruct (move_cb_outside_ignored demo_view _ _ _ Hcell Hout)
    as (Hok & Hrow & Hcol & _).
  split_and!; [exact Hcell | exact Hout | exact Hok | exact Hrow | exact Hcol].
Defined.

(** C6.  The limit function is swappable at runtime: after
    [set_limit_func f L] the stored limit function is [f] and the stored
    parameters are [L], the current image is the same, and the color limits
    are recomputed as [f] of the current image and [L], whether or not [L]
    equals the previous parameters. *)
Theorem set_limit_func_swaps (self : View) (f : limit_fn) (L : params) :
  _limit_func (set_limit_func f L self).2 = f ∧
  _limit_args (set_limit_func f L self).2 = L ∧
  _imdata (set_limit_func f L self).2 = _imdata self ∧
  ∀ v, f (_imdata self) L = Ok v →
       (set_limit_func f L self).1 = Ok tt ∧
       _im_clim (set_limit_func f L self).2 = Some v.
Proof.
  rewrite set_limit_func_run.
  destruct (f (_imdata self) L) as [v|e]; split_and!; try done.
  by intros ? [= <-].
Qed.

Lemma set_limit_func_swaps_witness :
  _limit_args demo_view = (0, hundred) ∧
  returns _absolute_limit (_imdata demo_view) (0, hundred) = Ok (0, hundred) ∧
  (set_limit_func (returns _absolute_limit) (0, hundred) demo_view).1 = Ok tt ∧
  _im_clim (set_limit_func (returns _absolute_limit) (0, hundred) demo_view).2
    = Some (0, hundred).
Proof.
  destruct (set_limit_func_swaps demo_view (returns _absolute_limit)
              (0, hundred)) as (_ & _ & _ & Hclim).
  destruct (Hclim (0, hundred)) as [Hok Hset]; [reflexivity|].
  split_and!; [reflexivity | reflexivity | exact Hok | exact Hset].
Defined.

(** C8.  [update_color_limits] called without [force_update] and with limits
    equal to the stored limit parameters is a no-op: it returns and no field
    of the view changes. *)
Theorem update_color_limits_same_noop (self : View) (new_limits : params) :
  new_limits = _limit_args self →
  update_color_limits new_limits false self = (Ok tt, self).
Proof. intros ->. apply update_color_limits_skip. Qed.

Lemma update_color_limits_same_noop_witness :
  (0, hundred) = _limit_args demo_view ∧
  update_color_limits (0, hundred) false demo_view = (Ok tt, demo_view).
Proof.
  split; [reflexivity|].
  apply (update_color_limits_same_noop demo_view (0, hundred)). reflexivity.
Defined.

(** C9.  [update_image img_idx] changes only the current-image reference:
    the view afterwards is the view before with [_imdata] replaced, so the
    limit function, limit parameters, color limits, side-panel ranges,
    active flag and stashed cell are as before; and when the [img_idx]-th key
    exists and has data stored under it, the call returns and the current
    image is that data. *)
Theorem update_image_frame (self : View) :
  (∀ img_idx,
     (update_image img_idx self).2
       = with_imdata (_imdata (update_image img_idx self).2) self ∧
     _limit_func (update_image img_idx self).2 = _limit_func self ∧
     _limit_args (update_image img_idx self).2 = _limit_args self ∧
     _im_clim (update_image img_idx self).2 = _im_clim self ∧
     _ax_v_xlim (update_image img_idx self).2 = _ax_v_xlim self ∧
     _ax_h_ylim (update_image img_idx self).2 = _ax_h_ylim self ∧
     _active (update_image img_idx self).2 = _active self ∧
     _row (update_image img_idx self).2 = _row self ∧
     _col (update_image img_idx self).2 = _col self) ∧
  (∀ (i : nat) k img,
     _key_list self !! i = Some k →
     _data_dict self !! k = Some img →
     update_image (Z.of_nat i) self = (Ok tt, with_imdata img self) ∧
     (update_image (Z.of_nat i) self).1 = Ok tt ∧
     _imdata (update_image (Z.of_nat i) self).2 = img).
Proof.
  split.
  - intros img_idx. rewrite update_image_run.
    destruct (result_bind _ _); simpl; split_and!; try done.
    by rewrite with_imdata_same.
  - intros i k img Hk Himg. rewrite update_image_run.
    rewrite (list_getitem_nat _ _ _ Hk). simpl.
    unfold dict_getitem. by rewrite Himg.
Qed.

Lemma update_image_frame_witness :
  _key_list demo_view !! 1%nat = Some "b"%string ∧
  _data_dict demo_view !! "b"%string = Some frame_b ∧
  _imdata demo_view = frame_a ∧
  (update_image 1 demo_view).1 = Ok tt ∧
  _imdata (update_image 1 demo_view).2 = frame_b.
Proof.
  assert (Hk : _key_list demo_view !! 1%nat = Some "b"%string) by done.
  assert (Himg : _data_dict demo_view !! "b"%string = Some frame_b)
    by (by vm_compute).
  destruct (update_image_frame demo_view) as [_ Hset].
  destruct (Hset 1%nat "b"%string frame_b Hk Himg) as (_ & Hok & Hnew).
  split; [exact Hk|]. split; [exact Himg|]. split; [reflexivity|].
  split; [exact Hok | exact Hnew].
Defined.

(** C10.  A button press inside the main image axes toggles the active flag;
    after an assignment to the [active] property, and so after such a click,
    the cursor's active flag equals the view's; while the view is inactive a
    mouse-move event changes nothing. *)
Theorem active_flag_protocol :
  (∀ self event,
     inaxes event = Some ImAx →
     (click_cb event self).1 = Ok tt ∧
     _active (click_cb event self).2 = negb (_active self) ∧
     cur_active (click_cb event self).2 = _active (click_cb event self).2) ∧
  (∀ self val,
     (active_setter val self).1 = Ok tt ∧
     _active (active_setter val self).2 = val ∧
     cur_active (active_setter val self).2
       = _active (active_setter val self).2) ∧
  (∀ self event,
     _active self = false → move_cb event self = (Ok tt, self)).
Proof.
  split_and!.
  - intros self event Hin. unfold click_cb.
    rewrite Hin, bool_decide_eq_true_2 by done. simpl.
    unfold bind, active, active_setter, attr, assign, cur_onmove, ret; simpl.
    destruct (_active self); simpl; [done|].
    destruct (move_cb_frame
                (with_cur_active true (with_active true self)) event)
      as (hv & vv & r & c & hd & vd & ->). done.
  - done.
  - apply move_cb_inactive.
Qed.

Lemma active_flag_protocol_witness :
  inaxes (hover 0 0) = Some ImAx ∧
  _active (click_cb (hover 0 0) demo_view).2 = negb (_active demo_view) ∧
  _active (with_active false demo_view) = false ∧
  move_cb (hover 0 0) (with_active false demo_view)
    = (Ok tt, with_active false demo_view).
Proof.
  destruct active_flag_protocol as (Hclick & _ & Hmove).
  split_and!; [done | | done |].
  - apply (Hclick demo_view (hover 0 0)). done.
  - apply (Hmove (with_active false demo_view) (hover 0 0)). done.
Defined.

(** * Further properties of the limit functions *)

(** Order statistics by position. *)
Lemma StronglySorted_lookup_le (s : list Qc) (i j : nat) (a b : Qc) :
  StronglySorted Qcle s → (i ≤ j)%nat →
  s !! i = Some a → s !! j = Some b → a ≤ b.
Proof.
  intros Hs. revert i j. induction Hs as [|x s Hs IH Hx]; intros i j Hij Ha Hb.
  - by rewrite lookup_nil in Ha.
  - destruct i as [|i], j as [|j]; simpl in *.
    + simplify_eq. apply Qcle_refl.
    + simplify_eq. rewrite Forall_forall in Hx. apply Hx.
      by eapply list_elem_of_lookup_2.
    + lia.
    + apply (IH i j); [lia|done..].
Qed.

Lemma order_statistics_lookup_le (xs s : list Qc) (i j : nat) (a b : Qc) :
  order_statistics xs s → (i ≤ j)%nat →
  s !! i = Some a → s !! j = Some b → a ≤ b.
Proof.
  intros [Hs _]. apply StronglySorted_lookup_le.
  by apply (Sorted_StronglySorted Qcle).
Qed.

Lemma order_statistics_elem_of (xs s : list Qc) (i : nat) (a : Qc) :
  order_statistics xs s → s !! i = Some a → a ∈ xs.
Proof.
  intros [_ Hp] Ha. rewrite <-Hp. by eapply list_elem_of_lookup_2.
Qed.

Lemma is_minimum_unique (xs : list Qc) (m1 m2 : Qc) :
  is_minimum xs m1 → is_minimum xs m2 → m1 = m2.
Proof. intros [Hin1 Hle1] [Hin2 Hle2]. apply Qcle_antisym; auto. Qed.

Lemma is_maximum_unique (xs : list Qc) (m1 m2 : Qc) :
  is_maximum xs m1 → is_maximum xs m2 → m1 = m2.
Proof. intros [Hin1 Hle1] [Hin2 Hle2]. apply Qcle_antisym; auto. Qed.

Lemma fractional_index_0 (n : nat) : fractional_index n 0 = Qc_of_Z 0.
Proof.
  unfold fractional_index, Qcdiv. rewrite !Qcmult_0_l.
  by apply Qc_is_canon.
Qed.

Lemma fractional_index_100 (n : nat) :
  fractional_index n hundred = Qc_of_Z (Z.of_nat n - 1).
Proof.
  unfold fractional_index, Qcdiv. by rewrite hundred_inv_r, Qcmult_1_l.
Qed.

Lemma Qc_of_Z_floor (k m : Z) :
  Qc_of_Z k ≤ Qc_of_Z m → Qc_of_Z m < Qc_of_Z (k + 1) → k = m.
Proof.
  intros Hle Hlt. apply (floor_unique (Qc_of_Z m)); [done..| |].
  - apply Qcle_refl.
  - unfold Qclt, Qc_of_Z; cbn [this]. rewrite <-Zlt_Qlt. lia.
Qed.

Lemma Qc_sub_diag (x : Qc) : x - x = 0.
Proof. ring. Qed.

Lemma percentile_value_0 (xs : list Qc) (v : Qc) :
  percentile_value xs 0 v → is_minimum xs v.
Proof.
  intros (s & k & a & b & Hos & Hle & Hlt & Hk & Hb & ->).
  rewrite fractional_index_0 in *.
  assert (k = 0%nat) as -> by (apply Qc_of_Z_floor in Hle; [lia|done]).
  rewrite Qc_sub_diag, Qcmult_0_l, Qcplus_0_r.
  split; [by eapply order_statistics_elem_of|].
  intros x Hx. destruct Hos as [Hs Hp]. rewrite <-Hp in Hx.
  apply list_elem_of_lookup in Hx as [j Hj].
  eapply (order_statistics_lookup_le xs s 0 j); [done|lia|done..].
Qed.

Lemma percentile_value_100 (xs : list Qc) (v : Qc) :
  percentile_value xs hundred v → is_maximum xs v.
Proof.
  intros (s & k & a & b & Hos & Hle & Hlt & Hk & Hb & ->).
  rewrite fractional_index_100 in *.
  assert (Hkn : Z.of_nat k = (Z.of_nat (length xs) - 1)%Z)
    by (by apply Qc_of_Z_floor in Hle).
  rewrite <-Hkn, Qc_sub_diag, Qcmult_0_l, Qcplus_0_r.
  split; [by eapply order_statistics_elem_of|].
  intros x Hx. pose proof Hos as [Hs Hp]. rewrite <-Hp in Hx.
  apply list_elem_of_lookup in Hx as [j Hj].
  eapply (order_statistics_lookup_le xs s j k); [done| |done..].
  apply lookup_lt_Some in Hj. rewrite (Permutation_length Hp) in Hj. lia.
Qed.

Lemma valid_rank_0 : valid_rank 0.
Proof. split; by vm_compute. Qed.

Lemma valid_rank_100 : valid_rank hundred.
Proof. split; by vm_compute. Qed.

Lemma full_range_raises {P} (i : image) (l : P) :
  pix i = [] → returns _full_range i l = Raise ValueError.
Proof.
  intros Hnil. rewrite returns_full_range. unfold np_min. by rewrite Hnil.
Qed.

Lemma full_range_returns {P} (i : image) (l : P) :
  pix i ≠ [] →
  ∃ lo hi, returns _full_range i l = Ok (lo, hi) ∧
           is_minimum (pix i) lo ∧ is_maximum (pix i) hi.
Proof.
  intros Hne.
  destruct (np_min_minimum i Hne) as (lo & Hlo & Hmin).
  destruct (np_max_maximum i Hne) as (hi & Hhi & Hmax).
  exists lo, hi. by rewrite returns_full_range, Hlo, Hhi.
Qed.

Lemma is_minimum_perm (xs ys : list Qc) (m : Qc) :
  xs ≡ₚ ys → is_minimum xs m → is_minimum ys m.
Proof.
  intros Hp [Hin Hle]. split; [by rewrite <-Hp|].
  intros x Hx. apply Hle. by rewrite Hp.
Qed.

Lemma is_maximum_perm (xs ys : list Qc) (m : Qc) :
  xs ≡ₚ ys → is_maximum xs m → is_maximum ys m.
Proof.
  intros Hp [Hin Hle]. split; [by rewrite <-Hp|].
  intros x Hx. apply Hle. by rewrite Hp.
Qed.

Lemma merge_sort_perm (xs ys : list Qc) :
  xs ≡ₚ ys → merge_sort Qcle xs = merge_sort Qcle ys.
Proof.
  intros Hp. apply (Sorted_unique Qcle);
    [apply (Sorted_merge_sort Qcle)..|].
  by rewrite !merge_sort_Permutation.
Qed.

(** X1.  On a non-empty image the percentile limits for the ranks (0, 100),
    which are the default limit parameters of the view, are the full range:
    the 0th percentile is the minimum and the 100th the maximum. *)
Theorem percentile_0_100_is_full_range {P : Type} (i : image) (l : P) :
  pix i ≠ [] →
  returns _percentile_limit i (0, hundred) = returns _full_range i l.
Proof.
  intros Hne. rewrite returns_percentile_limit.
  destruct (np_percentile_value i 0 hundred Hne valid_rank_0 valid_rank_100)
    as (v_lo & v_hi & -> & Hlo%percentile_value_0 & Hhi%percentile_value_100).
  destruct (full_range_returns i l Hne) as (lo & hi & -> & Hmin & Hmax).
  by rewrite (is_minimum_unique _ _ _ Hlo Hmin),
             (is_maximum_unique _ _ _ Hhi Hmax).
Qed.

Lemma percentile_0_100_is_full_range_witness :
  pix frame_a ≠ [] ∧
  returns _percentile_limit frame_a (0, hundred)
    = returns _full_range frame_a (0, hundred).
Proof.
  split; [discriminate|].
  apply (percentile_0_100_is_full_range frame_a (0, hundred)). discriminate.
Defined.

(** X4.  The full-range limit function raises [ValueError] exactly on an
    image without pixels.  When it returns, the pair is ordered, and its two
    components coincide exactly when the image is constant. *)
Theorem full_range_edge_cases {P : Type} (i : image) (l : P) :
  (pix i = [] ↔ returns _full_range i l = Raise ValueError) ∧
  ∀ lo hi, returns _full_range i l = Ok (lo, hi) →
           lo ≤ hi ∧ (lo = hi ↔ constant_image i lo).
Proof.
  split.
  - split; [apply full_range_raises|].
    intros Hraise. destruct (decide (pix i = [])) as [|Hne]; [done|].
    destruct (full_range_returns i l Hne) as (lo & hi & Hok & _).
    congruence.
  - intros lo hi Hok.
    assert (Hne : pix i ≠ []).
    { intros Hnil. rewrite (full_range_raises i l Hnil) in Hok. done. }
    destruct (full_range_returns i l Hne) as (lo' & hi' & Hok' & Hmin & Hmax).
    rewrite Hok in Hok'. simplify_eq.
    destruct Hmin as [Hlo_in Hlo], Hmax as [Hhi_in Hhi].
    split; [by apply Hlo|]. split.
    + intros <- x Hx. apply Qcle_antisym; [by apply Hhi | by apply Hlo].
    + intros Hconst. symmetry. by apply Hconst.
Qed.

Lemma full_range_edge_cases_witness :
  returns _full_range frame_a (0, hundred) = Ok (Qc_of_Z 1, Qc_of_Z 4) ∧
  Qc_of_Z 1 ≤ Qc_of_Z 4 ∧
  (Qc_of_Z 1 = Qc_of_Z 4 ↔ constant_image frame_a (Qc_of_Z 1)).
Proof.
  assert (Hok : returns _full_range frame_a (0, hundred)
                = Ok (Qc_of_Z 1, Qc_of_Z 4)) by reflexivity.
  split; [exact Hok|].
  destruct (full_range_edge_cases frame_a (0, hundred)) as [_ Hpair].
  apply (Hpair (Qc_of_Z 1) (Qc_of_Z 4) Hok).
Defined.

(** X5.  The full-range and percentile limits depend only on the pixel
    values, not on where they sit: two images whose buffers are
    rearrangements of each other (a transposed or reshaped image) get the
    same limits, or the same exception. *)
Theorem limits_ignore_arrangement (i1 i2 : image) :
  pix i1 ≡ₚ pix i2 →
  (∀ (P : Type) (l : P),
     returns _full_range i1 l = returns _full_range i2 l) ∧
  (∀ q, returns _percentile_limit i1 q = returns _percentile_limit i2 q).
Proof.
  intros Hp. split.
  - intros P l. destruct (decide (pix i1 = [])) as [Hnil|Hne].
    + assert (pix i2 = []) as Hnil2.
      { rewrite Hnil in Hp. by apply Permutation_nil_l in Hp. }
      by rewrite !full_range_raises.
    + assert (pix i2 ≠ []) as Hne2.
      { intros Hnil. rewrite Hnil in Hp. by apply Permutation_nil_r in Hp. }
      destruct (full_range_returns i1 l Hne) as (lo & hi & -> & Hmin & Hmax).
      destruct (full_range_returns i2 l Hne2)
        as (lo' & hi' & -> & Hmin' & Hmax').
      by rewrite (is_minimum_unique _ _ _ (is_minimum_perm _ _ _ Hp Hmin) Hmin'),
                 (is_maximum_unique _ _ _ (is_maximum_perm _ _ _ Hp Hmax) Hmax').
  - intros q. rewrite !returns_percentile_limit. unfold np_percentile.
    by rewrite (merge_sort_perm _ _ Hp).
Qed.

Lemma limits_ignore_arrangement_witness :
  pix frame_a
    ≡ₚ pix (Image 2 2 [Qc_of_Z 3; Qc_of_Z 4; Qc_of_Z 1; Qc_of_Z 2]) ∧
  returns _percentile_limit frame_a (Qc_of_Z 25, hundred)
    = returns _percentile_limit
        (Image 2 2 [Qc_of_Z 3; Qc_of_Z 4; Qc_of_Z 1; Qc_of_Z 2])
        (Qc_of_Z 25, hundred).
Proof.
  assert (Hp : pix frame_a
    ≡ₚ pix (Image 2 2 [Qc_of_Z 3; Qc_of_Z 4; Qc_of_Z 1; Qc_of_Z 2]))
    by (simpl; apply perm_skip, perm_swap).
  split; [exact Hp|].
  destruct (limits_ignore_arrangement _ _ Hp) as [_ Hq]. apply Hq.
Defined.

(** * Further properties of the view *)

(** ** Cross sections of an image *)

Lemma pixel_lookup (a : image) (row col : nat) :
  (row < numrows a)%nat → (col < numcols a)%nat →
  pixel a row col = pix a !! (row * numcols a + col)%nat.
Proof. intros Hr Hc. unfold pixel. by rewrite decide_True. Qed.

Lemma pixel_is_Some (a : image) (row col : nat) :
  well_shaped a → (row < numrows a)%nat → (col < numcols a)%nat →
  is_Some (pixel a row col).
Proof.
  intros Hshape Hr Hc. rewrite pixel_lookup by done.
  apply lookup_lt_is_Some_2. rewrite Hshape. nia.
Qed.

Lemma row_slice_length (a : image) (row : nat) :
  well_shaped a → (row < numrows a)%nat →
  length (row_slice a row) = numcols a.
Proof.
  intros Hshape Hr. unfold row_slice.
  rewrite length_take, length_drop, Hshape. nia.
Qed.

Lemma row_slice_pixel (a : image) (row c : nat) :
  well_shaped a → (row < numrows a)%nat →
  row_slice a row !! c = pixel a row c.
Proof.
  intros Hshape Hr. destruct (decide (c < numcols a)%nat) as [Hc|Hc].
  - rewrite pixel_lookup by done. unfold row_slice.
    by rewrite lookup_take_lt, lookup_drop.
  - unfold pixel. rewrite decide_False by lia.
    apply lookup_ge_None_2. rewrite row_slice_length by done. lia.
Qed.

Lemma omap_lookup_total {A B} (f : A → option B) (l : list A) (i : nat) :
  (∀ x, x ∈ l → is_Some (f x)) → omap f l !! i = l !! i ≫= f.
Proof.
  revert i. induction l as [|x l IH]; intros i Hf; [done|].
  destruct (Hf x) as [y Hy]; [by left|]. simpl. rewrite Hy.
  destruct i as [|i]; simpl; [done|].
  apply IH. intros z Hz. apply Hf. by right.
Qed.

Lemma col_slice_pixel (a : image) (col r : nat) :
  well_shaped a → (col < numcols a)%nat →
  col_slice a col !! r = pixel a r col.
Proof.
  intros Hshape Hc. unfold col_slice. rewrite omap_lookup_total.
  - destruct (decide (r < numrows a)%nat) as [Hr|Hr].
    + rewrite lookup_seq_lt by done. simpl. by rewrite pixel_lookup.
    + rewrite lookup_seq_ge by lia. unfold pixel.
      by rewrite decide_False by lia.
  - intros x [_ Hx]%elem_of_seq. apply lookup_lt_is_Some_2.
    rewrite Hshape. nia.
Qed.

Lemma getitem_pixel (a : image) (row col : nat) (z : Qc) :
  (row < numrows a)%nat → (col < numcols a)%nat →
  getitem a row col = Ok z ↔ pixel a row col = Some z.
Proof.
  intros Hr Hc. rewrite pixel_lookup by done. unfold getitem.
  destruct (pix a !! _); split; congruence.
Qed.

Lemma inside_nat (a : image) (row col : Z) :
  ¬ outside a row col →
  (0 ≤ row)%Z ∧ (0 ≤ col)%Z ∧
  (Z.to_nat row < numrows a)%nat ∧ (Z.to_nat col < numcols a)%nat.
Proof. unfold outside. lia. Qed.

(** ** The mouse callbacks, case by case *)

Ltac run_view := unfold bind, attr, assign, eval, ret; simpl.

Lemma event_cell_Some (event : MouseEvent) (row col : Z) :
  event_cell event = Some (row, col) →
  ∃ x y, xdata event = Some x ∧ ydata event = Some y ∧
         row = py_int (y + half) ∧ col = py_int (x + half).
Proof.
  unfold event_cell. destruct (xdata event) as [x|], (ydata event) as [y|];
    intros Hcell; simplify_eq. by exists x, y.
Qed.

Lemma move_cb_inside (self : View) (event : MouseEvent) (row col : Z) :
  _active self = true → inaxes event = Some ImAx →
  event_cell event = Some (row, col) →
  ¬ outside (_imdata self) row col →
  _row self ≠ Some row ∨ _col self ≠ Some col →
  move_cb event self =
    (Ok tt,
     with_ln_v_xdata (col_slice (_imdata self) (Z.to_nat col))
       (with_ln_h_ydata (row_slice (_imdata self) (Z.to_nat row))
          (with_row (Some row) (with_col (Some col)
             (with_ln_v_visible true (with_ln_h_visible true self)))))).
Proof.
  intros Hact Hax (x & y & Hx & Hy & -> & ->)%event_cell_Some Hin Hnew.
  apply inside_true in Hin.
  unfold move_cb; run_view. rewrite Hact, Hax, Hx, Hy. simpl.
  assert (negb (bool_decide (_row self = Some (py_int (y + half))))
          || negb (bool_decide (_col self = Some (py_int (x + half))))
          = true) as ->.
  { destruct Hnew as [Hne|Hne];
      rewrite (bool_decide_eq_false_2 _ Hne); simpl; [done|].
    by rewrite orb_true_r. }
  simpl in Hin. by rewrite Hin.
Qed.

Lemma move_cb_stashed (self : View) (event : MouseEvent) (row col : Z) :
  _active self = true → inaxes event = Some ImAx →
  event_cell event = Some (row, col) →
  _row self = Some row → _col self = Some col →
  move_cb event self =
    (Ok tt, with_ln_v_visible true (with_ln_h_visible true self)).
Proof.
  intros Hact Hax (x & y & Hx & Hy & -> & ->)%event_cell_Some Hrow Hcol.
  unfold move_cb; run_view. rewrite Hact, Hax, Hx, Hy. simpl.
  by rewrite !bool_decide_eq_true_2 by done.
Qed.

Lemma move_cb_other_axes (self : View) (event : MouseEvent) :
  inaxes event ≠ Some ImAx → move_cb event self = (Ok tt, self).
Proof.
  intros Hax. unfold move_cb; run_view.
  rewrite (bool_decide_eq_false_2 _ Hax). by destruct (_active self).
Qed.

Lemma move_cb_no_coordinates (self : View) (event : MouseEvent) :
  event_cell event = None → move_cb event self = (Ok tt, self).
Proof.
  intros Hcell. unfold move_cb; run_view.
  destruct (_active self); simpl; [|done].
  destruct (bool_decide _); simpl; [|done].
  unfold event_cell in Hcell.
  by destruct (xdata event), (ydata event).
Qed.

(** The two lines are visible and the view is otherwise as given. *)
Lemma visible_twice (self : View) :
  with_ln_v_visible true (with_ln_h_visible true
    (with_ln_v_visible true (with_ln_h_visible true self)))
  = with_ln_v_visible true (with_ln_h_visible true self).
Proof. done. Qed.

Lemma move_cb_outside_active (self : View) (event : MouseEvent)
    (row col : Z) :
  _active self = true → inaxes event = Some ImAx →
  event_cell event = Some (row, col) →
  outside (_imdata self) row col →
  move_cb event self =
    (Ok tt, with_ln_v_visible true (with_ln_h_visible true self)).
Proof.
  intros Hact Hax (x & y & Hx & Hy & -> & ->)%event_cell_Some Hout.
  apply inside_false in Hout.
  unfold move_cb; run_view. rewrite Hact, Hax, Hx, Hy. simpl.
  rewrite Hout. by destruct (negb _ || negb _).
Qed.

(** A second event for the same cell of the same axes finds nothing to
    do. *)
Lemma move_cb_repeat (self : View) (e1 e2 : MouseEvent) :
  inaxes e2 = inaxes e1 → event_cell e2 = event_cell e1 →
  move_cb e2 (move_cb e1 self).2 = (Ok tt, (move_cb e1 self).2).
Proof.
  intros Hax Hcell.
  destruct (_active self) eqn:Hact;
    [|by rewrite (move_cb_inactive _ e1 Hact); apply move_cb_inactive].
  destruct (decide (inaxes e1 = Some ImAx)) as [Hin|Hout];
    [|rewrite (move_cb_other_axes _ e1 Hout);
      apply move_cb_other_axes; congruence].
  destruct (event_cell e1) as [[row col]|] eqn:Hc1;
    [|rewrite (move_cb_no_coordinates _ e1 Hc1);
      by apply move_cb_no_coordinates].
  assert (Hax2 : inaxes e2 = Some ImAx) by congruence.
  destruct (decide (_row self = Some row ∧ _col self = Some col))
    as [[Hr Hc]|Hnew].
  - rewrite (move_cb_stashed _ e1 row col) by done. simpl.
    by rewrite (move_cb_stashed _ e2 row col).
  - assert (Hnew' : _row self ≠ Some row ∨ _col self ≠ Some col).
    { destruct (decide (_row self = Some row)); [|by left].
      right. intros Hc. by apply Hnew. }
    destruct (decide (outside (_imdata self) row col)) as [Hout|Hin'].
    + rewrite (move_cb_outside_active _ e1 row col) by done. simpl.
      by rewrite (move_cb_outside_active _ e2 row col).
    + rewrite (move_cb_inside _ e1 row col) by done. simpl.
      by rewrite (move_cb_stashed _ e2 row col).
Qed.

Lemma move_cb_cases (self : View) (event : MouseEvent) :
  move_cb event self = (Ok tt, self) ∨
  move_cb event self =
    (Ok tt, with_ln_v_visible true (with_ln_h_visible true self)) ∨
  ∃ row col,
    ¬ outside (_imdata self) row col ∧
    move_cb event self =
      (Ok tt,
       with_ln_v_xdata (col_slice (_imdata self) (Z.to_nat col))
         (with_ln_h_ydata (row_slice (_imdata self) (Z.to_nat row))
            (with_row (Some row) (with_col (Some col)
               (with_ln_v_visible true (with_ln_h_visible true self)))))).
Proof.
  destruct (_active self) eqn:Hact; [|left; by apply move_cb_inactive].
  destruct (decide (inaxes event = Some ImAx)) as [Hax|Hax];
    [|left; by apply move_cb_other_axes].
  destruct (event_cell event) as [[row col]|] eqn:Hcell;
    [|left; by apply move_cb_no_coordinates].
  destruct (decide (_row self = Some row ∧ _col self = Some col))
    as [[Hr Hc]|Hnew]; [right; left; by eapply move_cb_stashed|].
  destruct (decide (outside (_imdata self) row col)) as [Hout|Hin];
    [right; left; by eapply move_cb_outside_active|].
  right; right. exists row, col. split; [done|].
  apply move_cb_inside; try done.
  destruct (decide (_row self = Some row)); [|by left].
  right. intros Hc. by apply Hnew.
Qed.

(** ** The other operations, case by case *)

Lemma click_cb_run (self : View) (event : MouseEvent) :
  click_cb event self =
    if decide (inaxes event = Some ImAx) then
      if _active self
      then (Ok tt, with_cur_active false (with_active false self))
      else move_cb event (with_cur_active true (with_active true self))
    else (Ok tt, self).
Proof.
  unfold click_cb. destruct (decide (inaxes event = Some ImAx)) as [Hax|Hax].
  - rewrite (bool_decide_eq_true_2 _ Hax). simpl.
    unfold bind, active, active_setter, attr, assign, cur_onmove, ret; simpl.
    destruct (_active self); simpl; [done|].
    by destruct (move_cb event _) as [[]].
  - by rewrite (bool_decide_eq_false_2 _ Hax).
Qed.

Lemma clear_run (self : View) :
  clear draw_event self =
    (Ok tt,
     with_ln_v_visible false (with_ln_h_visible false
       (with_ax_h_bk (Some (Region (_ax_h_ylim self)))
          (with_ax_v_bk (Some (Region (_ax_v_xlim self))) self)))).
Proof. done. Qed.

Lemma update_color_limits_cases (self : View) (L : params) (force : bool) :
  update_color_limits L force self =
    if negb force && bool_decide (_limit_args self = L) then (Ok tt, self)
    else match _limit_func self (_imdata self) L with
         | Ok v =>
             (Ok tt, with_ax_h_ylim v (with_ax_v_xlim (reversed v)
                       (with_im_clim (Some v) (with_limit_args L self))))
         | Raise e => (Raise e, with_limit_args L self)
         end.
Proof.
  unfold update_color_limits; run_view.
  destruct (negb force && _); [done|].
  by destruct (_limit_func self (_imdata self) L).
Qed.

Lemma replot_run (self : View) :
  replot self =
    match _limit_func self (_imdata self) (_limit_args self) with
    | Ok v =>
        (Ok tt,
         with_ax_h_ylim v (with_ax_v_xlim (reversed v)
           (with_im_clim (Some v)
              (with_im_data (_imdata self)
                 (with_vmax (Some v.2) (with_vmin (Some v.1) self))))))
    | Raise e => (Raise e, self)
    end.
Proof.
  unfold replot; run_view.
  destruct (_limit_func self (_imdata self) (_limit_args self)) as [v|e] eqn:Hv;
    simpl; [|done].
  rewrite update_color_limits_cases. simpl. rewrite Hv.
  destruct v as [lo hi]. by destruct self.
Qed.

Lemma update_norm_run (self : View) :
  update_norm self =
    match _limit_func self (_imdata self) (_limit_args self) with
    | Ok v =>
        (Ok tt, with_ax_h_ylim v (with_ax_v_xlim (reversed v)
                  (with_im_clim (Some v) self)))
    | Raise e => (Raise e, self)
    end.
Proof.
  unfold update_norm; run_view. rewrite update_color_limits_cases. simpl.
  destruct (_limit_func self (_imdata self) (_limit_args self));
    by destruct self.
Qed.

Lemma list_getitem_elem_of {A} (l : list A) (i : Z) (x : A) :
  list_getitem l i = Ok x → x ∈ l.
Proof.
  unfold list_getitem. destruct (decide (0 ≤ _)%Z); [|done].
  destruct (l !! _) as [y|] eqn:Hy; [|done].
  intros [= <-]. by eapply list_elem_of_lookup_2.
Qed.

Lemma list_getitem_out_of_range {A} (l : list A) (i : Z) :
  (Z.of_nat (length l) ≤ i ∨ i < - Z.of_nat (length l))%Z →
  list_getitem l i = Raise IndexError.
Proof.
  intros Hi. unfold list_getitem.
  destruct (decide (i < 0)%Z).
  - rewrite decide_False by lia. done.
  - rewrite decide_True by lia.
    rewrite lookup_ge_None_2 by lia. done.
Qed.

Lemma list_getitem_negative {A} (l : list A) (i : Z) :
  (- Z.of_nat (length l) ≤ i < 0)%Z →
  list_getitem l i = list_getitem l (i + Z.of_nat (length l)).
Proof.
  intros Hi. unfold list_getitem.
  rewrite (decide_True (P := (i < 0)%Z)) by lia.
  by rewrite (decide_False (P := (i + Z.of_nat (length l) < 0)%Z)) by lia.
Qed.

(** ** Case analysis over the operations *)

Ltac operation_cases op self :=
  destruct op as [event|event| |val| |img_idx| | |L force|f L];
  cbn [run_operation];
  [ destruct (move_cb_cases self event)
      as [-> | [-> | (row & col & Hin & ->)]]
  | rewrite click_cb_run; destruct (decide _);
    [ destruct (_active self) eqn:?;
      [ | destruct (move_cb_cases
                      (with_cur_active true (with_active true self)) event)
            as [-> | [-> | (row & col & Hin & ->)]] ]
    | ]
  | rewrite clear_run
  | unfold active_setter; run_view
  | unfold update_cmap, ret
  | rewrite update_image_run;
    destruct (list_getitem (_key_list self) img_idx) as [k|e] eqn:Hkey;
    cbn [result_bind];
    [ destruct (dict_getitem (_data_dict self) k) as [img|e] eqn:Himg | ]
  | rewrite replot_run; destruct (_limit_func self _ _)
  | rewrite update_norm_run; destruct (_limit_func self _ _)
  | rewrite update_color_limits_cases; destruct (negb _ && _);
    [ | destruct (_limit_func self _ _) ]
  | rewrite set_limit_func_run; destruct (f _ _) ].

Lemma flags_agree_step (self : View) (op : operation) :
  flags_agree self → flags_agree (run_operation op self).2.
Proof. intros Hinv. operation_cases op self; done. Qed.

Lemma stash_consistent_step (self : View) (op : operation) :
  stash_consistent self → stash_consistent (run_operation op self).2.
Proof.
  intros Hinv. operation_cases op self; try done;
    (apply inside_nat in Hin; unfold stash_consistent; simpl; lia).
Qed.

Lemma image_set_step (self : View) (op : operation) :
  _data_dict (run_operation op self).2 = _data_dict self ∧
  _key_list (run_operation op self).2 = _key_list self.
Proof. operation_cases op self; done. Qed.

Lemma dict_getitem_Ok (d : gmap string image) (k : string) (a : image) :
  dict_getitem d k = Ok a → d !! k = Some a.
Proof. unfold dict_getitem. destruct (d !! k); congruence. Qed.

Lemma stored_images_step (self : View) (op : operation) :
  stored_image self (_imdata self) ∧ stored_image self (_im_data self) →
  stored_image (run_operation op self).2 (_imdata (run_operation op self).2) ∧
  stored_image (run_operation op self).2 (_im_data (run_operation op self).2).
Proof.
  intros [Hcur Hshown]. operation_cases op self; try done.
  split; [|done]. exists k. split.
  - by eapply list_getitem_elem_of.
  - by apply dict_getitem_Ok.
Qed.

(** ** What the constructor leaves *)

Lemma init_post (data_list : list image) (key_list : list string)
    (limit_func : option limit_fn) (limit_args : option params)
    (self : View) :
  __init__ data_list key_list limit_func limit_args = Ok self →
  ∃ k0 v,
    key_list !! 0%nat = Some k0 ∧
    _data_dict self !! k0 = Some (_imdata self) ∧
    _data_dict self = (AbstractDataView2D_init data_list key_list).1 ∧
    _key_list self = key_list ∧
    _limit_func self = default (returns _full_range) limit_func ∧
    _limit_args self = default (0, hundred) limit_args ∧
    _limit_func self (_imdata self) (_limit_args self) = Ok v ∧
    _ax_h_ylim self = v ∧ _ax_v_xlim self = v ∧
    _im_data self = _imdata self ∧ _im_clim self = None ∧
    _active self = true ∧ cur_active self = true ∧
    _row self = None ∧ _col self = None ∧
    _ln_h_visible self = false ∧ _ln_v_visible self = false ∧
    _ln_h_ydata self = np_zeros (numcols (_imdata self)) ∧
    _ln_v_xdata self = np_zeros (numrows (_imdata self)) ∧
    _ax_h_bk self = Some (Region v) ∧ _ax_v_bk self = Some (Region v).
Proof.
  unfold __init__, AbstractDataView2D_init. cbv zeta. cbn iota.
  destruct (list_getitem key_list 0) as [k0|e] eqn:Hk0; cbn [result_bind];
    [|done].
  destruct (dict_getitem _ k0) as [img|e] eqn:Himg; cbn [result_bind];
    [|done].
  destruct (default (returns _full_range) limit_func img _) as [v|e] eqn:Hv;
    cbn [result_bind]; [|done].
  intros [= <-]. exists k0, v. simpl.
  split_and!; try done.
  - unfold list_getitem in Hk0. simpl in Hk0.
    change (Z.to_nat 0) with 0%nat in Hk0.
    destruct (key_list !! 0%nat); by simplify_eq.
  - by apply dict_getitem_Ok.
Qed.

Lemma reachable_invariants (self : View) :
  reachable self →
  flags_agree self ∧ stash_consistent self ∧
  stored_image self (_imdata self) ∧ stored_image self (_im_data self).
Proof.
  induction 1 as [data_list key_list limit_func limit_args self Hinit
                 |self op _ (Hflags & Hstash & Hcur & Hshown)].
  - destruct (init_post _ _ _ _ _ Hinit)
      as (k0 & v & Hk0 & Himg & _ & Hkeys & _ & _ & _ & _ & _ & Hshown & _
          & Hact & Hcur & Hrow & Hcol & _).
    assert (Hstored : stored_image self (_imdata self)).
    { exists k0. split; [|done]. rewrite Hkeys.
      by eapply list_elem_of_lookup_2. }
    split_and!; try done.
    + unfold flags_agree. congruence.
    + unfold stash_consistent. by rewrite Hrow, Hcol.
    + by rewrite Hshown.
  - split_and!.
    + by apply flags_agree_step.
    + by apply stash_consistent_step.
    + by apply stored_images_step.
    + by apply stored_images_step.
Qed.

Lemma run_operations_image_set (ops : list operation) (self : View) :
  _data_dict (run_operations ops self) = _data_dict self ∧
  _key_list (run_operations ops self) = _key_list self.
Proof.
  revert self. induction ops as [|op ops IH]; intros self; [done|].
  simpl. destruct (IH (run_operation op self).2) as [-> ->].
  apply image_set_step.
Qed.

Lemma demo_view_reachable : reachable demo_view.
Proof. eapply reachable_init, demo_view_constructed. Qed.

Lemma col_slice_length (a : image) (col : nat) :
  well_shaped a → (col < numcols a)%nat →
  length (col_slice a col) = numrows a.
Proof.
  intros Hshape Hc.
  destruct (Nat.lt_trichotomy (length (col_slice a col)) (numrows a))
    as [Hlt|[Heq|Hgt]]; [|done|].
  - pose proof (lookup_ge_None_2 (col_slice a col) _ (Nat.le_refl _)) as Hnone.
    rewrite col_slice_pixel in Hnone by done.
    destruct (pixel_is_Some a (length (col_slice a col)) col) as [z Hz];
      [done..|]. congruence.
  - destruct (lookup_lt_is_Some_2 (col_slice a col) (numrows a) Hgt) as [z Hz].
    rewrite col_slice_pixel in Hz by done. unfold pixel in Hz.
    rewrite decide_False in Hz by lia. done.
Qed.

Lemma toolkit_event_frame (self : View) (op : operation) :
  toolkit_event op →
  (run_operation op self).1 = Ok tt ∧
  plot_settings (run_operation op self).2 = plot_settings self.
Proof. intros Hev. operation_cases op self; done. Qed.

Lemma owner_call_frame (self : View) (op : operation) :
  owner_call op →
  tracking_state (run_operation op self).2 = tracking_state self.
Proof. intros Hcall. operation_cases op self; done. Qed.

Lemma move_cb_stashes (self : View) (event : MouseEvent) (row col : Z) :
  _active self = true → inaxes event = Some ImAx →
  event_cell event = Some (row, col) →
  ¬ outside (_imdata self) row col →
  _active (move_cb event self).2 = true ∧
  _row (move_cb event self).2 = Some row ∧
  _col (move_cb event self).2 = Some col.
Proof.
  intros Hact Hax Hcell Hin.
  destruct (decide (_row self = Some row ∧ _col self = Some col))
    as [[Hr Hc]|Hnew].
  - by rewrite (move_cb_stashed self event row col).
  - rewrite (move_cb_inside self event row col); try done.
    destruct (decide (_row self = Some row)); [|by left].
    right. intros Hc. by apply Hnew.
Qed.



Lemma init_raises (data_list : list image) (key_list : list string)
    (limit_func : option limit_fn) (limit_args : option params)
    (k0 : string) (img : image) (e : exn) :
  key_list !! 0%nat = Some k0 →
  (AbstractDataView2D_init data_list key_list).1 !! k0 = Some img →
  default (returns _full_range) limit_func img
    (default (0, hundred) limit_args) = Raise e →
  __init__ data_list key_list limit_func limit_args = Raise e.
Proof.
  intros Hk Himg He.
  pose proof (list_getitem_nat key_list 0 k0 Hk) as Hk0.
  change (Z.of_nat 0) with 0%Z in Hk0.
  unfold __init__, AbstractDataView2D_init in *.
  cbn [fst] in Himg. cbv zeta. cbn iota.
  rewrite Hk0. cbn [result_bind].
  unfold dict_getitem. rewrite Himg. cbn [result_bind].
  match goal with
  | |- context [result_bind ?r _] =>
      replace r with (Raise e : result climits) by (symmetry; exact He)
  end.
  done.
Qed.

(** ** Further properties: the mouse callbacks *)

(** X6.  When the view is active and the mouse moves over the main image to
    a cell inside the current image other than the stashed one, the handler
    returns, stashes the cell, makes both cut lines visible, and loads them
    with the cross sections through that cell: the horizontal line holds the
    row of the image at that cell's row, the vertical line holds the column
    at that cell's column, pixel by pixel. *)
Theorem move_cb_shows_cross_sections (self : View) (event : MouseEvent)
    (row col : Z) :
  _active self = true → inaxes event = Some ImAx →
  event_cell event = Some (row, col) →
  well_shaped (_imdata self) → ¬ outside (_imdata self) row col →
  _row self ≠ Some row ∨ _col self ≠ Some col →
  (move_cb event self).1 = Ok tt ∧
  _row (move_cb event self).2 = Some row ∧
  _col (move_cb event self).2 = Some col ∧
  _ln_h_visible (move_cb event self).2 = true ∧
  _ln_v_visible (move_cb event self).2 = true ∧
  length (_ln_h_ydata (move_cb event self).2) = numcols (_imdata self) ∧
  length (_ln_v_xdata (move_cb event self).2) = numrows (_imdata self) ∧
  (∀ c, _ln_h_ydata (move_cb event self).2 !! c
        = pixel (_imdata self) (Z.to_nat row) c) ∧
  (∀ r, _ln_v_xdata (move_cb event self).2 !! r
        = pixel (_imdata self) r (Z.to_nat col)).
Proof.
  intros Hact Hax Hcell Hshape Hin Hnew.
  rewrite (move_cb_inside self event row col) by done. simpl.
  destruct (inside_nat _ _ _ Hin) as (_ & _ & Hr & Hc).
  split_and!; try done.
  - by apply row_slice_length.
  - by apply col_slice_length.
  - intros c. by apply row_slice_pixel.
  - intros r. by apply col_slice_pixel.
Qed.

Lemma move_cb_shows_cross_sections_witness :
  _active demo_view = true ∧ inaxes (hover 0 1) = Some ImAx ∧
  event_cell (hover 0 1) = Some (1, 0)%Z ∧
  well_shaped (_imdata demo_view) ∧ ¬ outside (_imdata demo_view) 1 0 ∧
  (_row demo_view ≠ Some 1%Z ∨ _col demo_view ≠ Some 0%Z) ∧
  _ln_h_ydata (move_cb (hover 0 1) demo_view).2 !! 1%nat
    = pixel (_imdata demo_view) 1 1.
Proof.
  assert (Hcell : event_cell (hover 0 1) = Some (1, 0)%Z) by (by vm_compute).
  assert (Hshape : well_shaped (_imdata demo_view)) by reflexivity.
  assert (Hin : ¬ outside (_imdata demo_view) 1 0)
    by (unfold outside; simpl; lia).
  assert (Hnew : _row demo_view ≠ Some 1%Z ∨ _col demo_view ≠ Some 0%Z)
    by (left; discriminate).
  split_and!; [reflexivity | reflexivity | exact Hcell | exact Hshape
              | exact Hin | exact Hnew |].
  destruct (move_cb_shows_cross_sections demo_view (hover 0 1) 1 0
              eq_refl eq_refl Hcell Hshape Hin Hnew)
    as (_ & _ & _ & _ & _ & _ & _ & Hrow & _).
  apply (Hrow 1%nat).
Defined.

(** X7.  The handler skips a cell it has already stashed: a mouse move whose
    cell equals the stashed one returns without touching the stash or the
    line data, and after any mouse move a second one for the same cell of
    the same axes changes nothing at all. *)
Theorem move_cb_skips_stashed_cell :
  (∀ self event row col,
     event_cell event = Some (row, col) →
     _row self = Some row → _col self = Some col →
     (move_cb event self).1 = Ok tt ∧
     _row (move_cb event self).2 = Some row ∧
     _col (move_cb event self).2 = Some col ∧
     _ln_h_ydata (move_cb event self).2 = _ln_h_ydata self ∧
     _ln_v_xdata (move_cb event self).2 = _ln_v_xdata self) ∧
  (∀ self e1 e2,
     inaxes e2 = inaxes e1 → event_cell e2 = event_cell e1 →
     move_cb e2 (move_cb e1 self).2 = (Ok tt, (move_cb e1 self).2)).
Proof.
  split.
  - intros self event row col Hcell Hrow Hcol.
    destruct (_active self) eqn:Hact;
      [|by rewrite (move_cb_inactive _ event Hact)].
    destruct (decide (inaxes event = Some ImAx)) as [Hax|Hax];
      [|by rewrite (move_cb_other_axes _ event Hax)].
    by rewrite (move_cb_stashed self event row col).
  - apply move_cb_repeat.
Qed.

Lemma move_cb_skips_stashed_cell_witness :
  event_cell (hover 0 1) = Some (1, 0)%Z ∧
  move_cb (hover (Q2Qc (1 # 4)) (Q2Qc (3 # 4)))
      (move_cb (hover 0 1) demo_view).2
    = (Ok tt, (move_cb (hover 0 1) demo_view).2).
Proof.
  split; [by vm_compute|].
  destruct move_cb_skips_stashed_cell as [_ Hrepeat].
  apply (Hrepeat demo_view (hover 0 1) (hover (Q2Qc (1 # 4)) (Q2Qc (3 # 4))));
    by vm_compute.
Defined.

(** X8.  The cut lines are not refreshed when the image is switched: after a
    mouse move to a cell inside the image, [update_image] followed by
    [replot] leaves the stash and the line data alone, so a further mouse
    move for the same cell is skipped and the lines still hold the cross
    sections of the previous image. *)
Theorem cuts_stale_after_update_image (self : View) (event : MouseEvent)
    (row col : Z) (img_idx : Z) :
  _active self = true → inaxes event = Some ImAx →
  event_cell event = Some (row, col) →
  ¬ outside (_imdata self) row col →
  let hovered := (move_cb event self).2 in
  let switched := (replot (update_image img_idx hovered).2).2 in
  (move_cb event switched).1 = Ok tt ∧
  _ln_h_ydata (move_cb event switched).2 = _ln_h_ydata hovered ∧
  _ln_v_xdata (move_cb event switched).2 = _ln_v_xdata hovered.
Proof.
  intros Hact Hax Hcell Hin hovered switched.
  destruct (move_cb_stashes self event row col Hact Hax Hcell Hin)
    as (Hact1 & Hrow1 & Hcol1). fold hovered in Hact1, Hrow1, Hcol1.
  pose proof (owner_call_frame hovered (UpdateImage img_idx) I) as Hupd.
  pose proof (owner_call_frame (update_image img_idx hovered).2 Replot I)
    as Hrep.
  cbn [run_operation] in Hupd, Hrep. fold switched in Hrep.
  rewrite Hupd in Hrep. unfold tracking_state in Hrep.
  injection Hrep as Ha _ Hr Hc Hh Hv _ _ _ _.
  rewrite (move_cb_stashed switched event row col) by congruence.
  by simpl.
Qed.

Lemma cuts_stale_after_update_image_witness :
  _active demo_view = true ∧ inaxes (hover 0 1) = Some ImAx ∧
  event_cell (hover 0 1) = Some (1, 0)%Z ∧
  ¬ outside (_imdata demo_view) 1 0 ∧
  _imdata (replot (update_image 1 (move_cb (hover 0 1) demo_view).2).2).2
    = frame_b ∧
  _ln_h_ydata
    (move_cb (hover 0 1)
       (replot (update_image 1 (move_cb (hover 0 1) demo_view).2).2).2).2
    = row_slice frame_a 1.
Proof.
  assert (Hcell : event_cell (hover 0 1) = Some (1, 0)%Z) by (by vm_compute).
  assert (Hin : ¬ outside (_imdata demo_view) 1 0)
    by (unfold outside; simpl; lia).
  split_and!; [reflexivity | reflexivity | exact Hcell | exact Hin
              | by vm_compute |].
  destruct (cuts_stale_after_update_image demo_view (hover 0 1) 1 0 1
              eq_refl eq_refl Hcell Hin) as (_ & Hh & _).
  rewrite Hh. by vm_compute.
Defined.

(** X9.  The event handlers and the owner's methods keep to their own parts
    of the view.  A mouse move, a button press and a draw event never raise
    and never change the image set, the current or displayed image, the
    limit function and parameters, the color limits or the side-panel
    ranges.  The methods [update_cmap], [update_image], [replot],
    [update_norm], [update_color_limits] and [set_limit_func] never change
    the active flags, the stashed cell, the cut lines or the saved
    backgrounds, whether they return or raise. *)
Theorem handlers_and_methods_are_separate (self : View) (op : operation) :
  (toolkit_event op →
     (run_operation op self).1 = Ok tt ∧
     plot_settings (run_operation op self).2 = plot_settings self) ∧
  (owner_call op →
     tracking_state (run_operation op self).2 = tracking_state self).
Proof.
  split; [apply toolkit_event_frame | apply owner_call_frame].
Qed.

Lemma handlers_and_methods_are_separate_witness :
  toolkit_event (Click (hover 0 1)) ∧
  plot_settings (run_operation (Click (hover 0 1)) demo_view).2
    = plot_settings demo_view ∧
  owner_call Replot ∧
  tracking_state (run_operation Replot demo_view).2
    = tracking_state demo_view.
Proof.
  split_and!; [exact I | | exact I |].
  - apply (handlers_and_methods_are_separate demo_view (Click (hover 0 1))).
    exact I.
  - apply (handlers_and_methods_are_separate demo_view Replot). exact I.
Defined.

(** X10.  On every view a program can hold, that is the constructed view
    after any sequence of events and method calls, failed ones included, the
    cursor widget is active exactly when the view is, and the stashed cell
    is either absent or has a row and a column that are both
    non-negative. *)
Theorem reachable_flags_and_stash (self : View) :
  reachable self → flags_agree self ∧ stash_consistent self.
Proof.
  intros Hreach.
  destruct (reachable_invariants self Hreach) as (? & ? & _). done.
Qed.

Lemma reachable_flags_and_stash_witness :
  reachable (run_operation (Click (hover 0 1)) demo_view).2 ∧
  flags_agree (run_operation (Click (hover 0 1)) demo_view).2 ∧
  stash_consistent (run_operation (Click (hover 0 1)) demo_view).2.
Proof.
  assert (Hreach : reachable (run_operation (Click (hover 0 1)) demo_view).2)
    by (apply reachable_step, demo_view_reachable).
  split; [exact Hreach|].
  apply (reachable_flags_and_stash _ Hreach).
Defined.

(** X11.  The image set is fixed at construction: no event or method changes
    the dict of images or the key list.  On every view a program can hold,
    the current image and the displayed image are images stored in the set
    under a listed key. *)
Theorem image_set_is_fixed :
  (∀ ops self,
     _data_dict (run_operations ops self) = _data_dict self ∧
     _key_list (run_operations ops self) = _key_list self) ∧
  (∀ self,
     reachable self →
     stored_image self (_imdata self) ∧ stored_image self (_im_data self)).
Proof.
  split; [apply run_operations_image_set|].
  intros self Hreach.
  destruct (reachable_invariants self Hreach) as (_ & _ & ? & ?). done.
Qed.

Lemma image_set_is_fixed_witness :
  reachable (run_operation (UpdateImage 1) demo_view).2 ∧
  stored_image (run_operation (UpdateImage 1) demo_view).2
    (_imdata (run_operation (UpdateImage 1) demo_view).2).
Proof.
  assert (Hreach : reachable (run_operation (UpdateImage 1) demo_view).2)
    by (apply reachable_step, demo_view_reachable).
  split; [exact Hreach|].
  destruct image_set_is_fixed as [_ Hstored].
  apply (Hstored _ Hreach).
Defined.

(** ** Further properties: from cursor coordinates to cells *)





Lemma Qc_of_Z_lt (a b : Z) : (a < b)%Z → Qc_of_Z a < Qc_of_Z b.
Proof. intros H. unfold Qclt, Qc_of_Z; cbn [this]. by rewrite <-Zlt_Qlt. Qed.

Lemma Qc_of_Z_le_inv (a b : Z) : Qc_of_Z a ≤ Qc_of_Z b → (a ≤ b)%Z.
Proof. unfold Qcle, Qc_of_Z; cbn [this]. by rewrite <-Zle_Qle. Qed.





(** ** Further properties: the methods of the view *)

(** X13.  Switching the image.  When the [i]-th key has an image stored
    under it and the limit function returns for it, [update_image i]
    followed by [replot] returns and brings the whole plot in line with the
    new image: it is the current and the displayed image, the color limits
    and the horizontal cut's range are the pair computed for it, the
    vertical cut holds that pair reversed, and [vmin], [vmax] are its
    components.  The limit parameters and everything the event handlers
    maintain are as before. *)
Theorem update_image_then_replot (self : View) (i : nat) (k : string)
    (img : image) (v : climits) :
  _key_list self !! i = Some k →
  _data_dict self !! k = Some img →
  _limit_func self img (_limit_args self) = Ok v →
  ∃ self',
    update_image (Z.of_nat i) self = (Ok tt, with_imdata img self) ∧
    replot (with_imdata img self) = (Ok tt, self') ∧
    _imdata self' = img ∧ _im_data self' = img ∧
    _im_clim self' = Some v ∧
    _ax_h_ylim self' = v ∧ _ax_v_xlim self' = reversed v ∧
    vmin self' = Some v.1 ∧ vmax self' = Some v.2 ∧
    _limit_func self' = _limit_func self ∧
    _limit_args self' = _limit_args self ∧
    tracking_state self' = tracking_state self.
Proof.
  intros Hk Himg Hv. eexists. split.
  - rewrite update_image_run, (list_getitem_nat _ _ _ Hk). simpl.
    unfold dict_getitem. by rewrite Himg.
  - rewrite replot_run. simpl. rewrite Hv. by split_and!.
Qed.

Lemma update_image_then_replot_witness :
  _key_list demo_view !! 1%nat = Some "b"%string ∧
  _data_dict demo_view !! "b"%string = Some frame_b ∧
  _limit_func demo_view frame_b (_limit_args demo_view)
    = Ok (Qc_of_Z 5, Qc_of_Z 8) ∧
  ∃ self',
    replot (update_image 1 demo_view).2 = (Ok tt, self') ∧
    _ax_h_ylim self' = (Qc_of_Z 5, Qc_of_Z 8) ∧
    _ax_v_xlim self' = (Qc_of_Z 8, Qc_of_Z 5).
Proof.
  assert (Hk : _key_list demo_view !! 1%nat = Some "b"%string) by done.
  assert (Himg : _data_dict demo_view !! "b"%string = Some frame_b)
    by (by vm_compute).
  assert (Hv : _limit_func demo_view frame_b (_limit_args demo_view)
               = Ok (Qc_of_Z 5, Qc_of_Z 8)) by reflexivity.
  split_and!; [exact Hk | exact Himg | exact Hv |].
  destruct (update_image_then_replot demo_view 1 "b"%string frame_b _
              Hk Himg Hv)
    as (self' & Hupd & Hrep & _ & _ & _ & Hy & Hx & _).
  exists self'. change (Z.of_nat 1) with 1%Z in Hupd. rewrite Hupd.
  by split_and!.
Defined.

(** X14.  Recomputing twice is recomputing once.  Running [replot],
    [update_norm] or [set_limit_func] a second time gives the same outcome
    and the same view as the first run, and a second [update_color_limits]
    with the same arguments leaves the view the first one produced. *)
Theorem recomputing_twice_is_once (self : View) :
  replot (replot self).2 = replot self ∧
  update_norm (update_norm self).2 = update_norm self ∧
  (∀ f L,
     set_limit_func f L (set_limit_func f L self).2
       = set_limit_func f L self) ∧
  (∀ L force,
     (update_color_limits L force (update_color_limits L force self).2).2
       = (update_color_limits L force self).2).
Proof.
  split_and!.
  - rewrite (replot_run self).
    destruct (_limit_func self _ _) as [v|e] eqn:Hv; simpl.
    + rewrite replot_run. simpl. rewrite Hv. by destruct self.
    + by rewrite replot_run, Hv.
  - rewrite (update_norm_run self).
    destruct (_limit_func self _ _) as [v|e] eqn:Hv; simpl.
    + rewrite update_norm_run. simpl. rewrite Hv. by destruct self.
    + by rewrite update_norm_run, Hv.
  - intros f L. rewrite (set_limit_func_run self).
    destruct (f _ L) as [v|e] eqn:Hv; simpl.
    + rewrite set_limit_func_run. simpl. rewrite Hv. by destruct self.
    + rewrite set_limit_func_run. simpl. rewrite Hv. by destruct self.
  - intros L force. rewrite (update_color_limits_cases self).
    destruct (negb force && bool_decide (_limit_args self = L)) eqn:Hskip;
      simpl.
    + by rewrite update_color_limits_cases, Hskip.
    + destruct (_limit_func self _ L) as [v|e] eqn:Hv; simpl;
        rewrite update_color_limits_cases; simpl;
        destruct (negb force && bool_decide (L = L)); simpl; try done;
        rewrite Hv; by destruct self.
Qed.

(** X15.  A failed update is half applied.  When the limit function raises
    for the new limits, [update_color_limits] raises the same exception
    after it has stored them: the view is the old one with [_limit_args]
    replaced, color limits and side-panel ranges untouched.  Asking again
    for the same limits without [force_update] then returns normally without
    computing anything, and [replot] raises the same exception. *)
Theorem failed_update_keeps_new_limits (self : View) (L : params)
    (force : bool) (e : exn) :
  force = true ∨ L ≠ _limit_args self →
  _limit_func self (_imdata self) L = Raise e →
  update_color_limits L force self = (Raise e, with_limit_args L self) ∧
  update_color_limits L false (with_limit_args L self)
    = (Ok tt, with_limit_args L self) ∧
  replot (with_limit_args L self) = (Raise e, with_limit_args L self).
Proof.
  intros Hgo He. split_and!.
  - by rewrite update_color_limits_run, He.
  - apply (update_color_limits_skip (with_limit_args L self)).
  - rewrite replot_run. simpl. by rewrite He.
Qed.

Lemma failed_update_keeps_new_limits_witness :
  (0, Qc_of_Z 101) ≠ _limit_args demo_view ∧
  _limit_func (with_limit_func (returns _percentile_limit) demo_view)
    (_imdata demo_view) (0, Qc_of_Z 101) = Raise ValueError ∧
  update_color_limits (0, Qc_of_Z 101) false
    (with_limit_func (returns _percentile_limit) demo_view)
  = (Raise ValueError,
     with_limit_args (0, Qc_of_Z 101)
       (with_limit_func (returns _percentile_limit) demo_view)).
Proof.
  assert (Hne : (0, Qc_of_Z 101) ≠ _limit_args demo_view)
    by (simpl; intros [=]).
  assert (He : _limit_func
                 (with_limit_func (returns _percentile_limit) demo_view)
                 (_imdata demo_view) (0, Qc_of_Z 101) = Raise ValueError)
    by (by vm_compute).
  split_and!; [exact Hne | exact He |].
  apply (failed_update_keeps_new_limits
           (with_limit_func (returns _percentile_limit) demo_view)
           (0, Qc_of_Z 101) false ValueError); [by right | exact He].
Defined.

(** X16.  Selecting an image that is not there.  [update_image] raises
    [IndexError] for an index at or beyond the number of keys, or below its
    negative, and [KeyError] when the selected key has no image stored under
    it; in both cases the view is unchanged.  A negative index within range
    counts from the end of the key list. *)
Theorem update_image_errors (self : View) :
  (∀ img_idx,
     (Z.of_nat (length (_key_list self)) ≤ img_idx ∨
      img_idx < - Z.of_nat (length (_key_list self)))%Z →
     update_image img_idx self = (Raise IndexError, self)) ∧
  (∀ (i : nat) k,
     _key_list self !! i = Some k → _data_dict self !! k = None →
     update_image (Z.of_nat i) self = (Raise KeyError, self)) ∧
  (∀ img_idx,
     (- Z.of_nat (length (_key_list self)) ≤ img_idx < 0)%Z →
     update_image img_idx self
       = update_image (img_idx + Z.of_nat (length (_key_list self))) self).
Proof.
  split_and!.
  - intros img_idx Hout.
    by rewrite update_image_run, list_getitem_out_of_range.
  - intros i k Hk Hnone.
    rewrite update_image_run, (list_getitem_nat _ _ _ Hk). simpl.
    unfold dict_getitem. by rewrite Hnone.
  - intros img_idx Hneg.
    by rewrite !update_image_run, list_getitem_negative.
Qed.

Lemma update_image_errors_witness :
  (Z.of_nat (length (_key_list demo_view)) ≤ 2)%Z ∧
  update_image 2 demo_view = (Raise IndexError, demo_view) ∧
  (- Z.of_nat (length (_key_list demo_view)) ≤ -1 < 0)%Z ∧
  update_image (-1) demo_view = update_image 1 demo_view.
Proof.
  destruct (update_image_errors demo_view) as (Hout & _ & Hneg).
  assert (H2 : (Z.of_nat (length (_key_list demo_view)) ≤ 2)%Z)
    by (simpl; lia).
  assert (Hm1 : (- Z.of_nat (length (_key_list demo_view)) ≤ -1 < 0)%Z)
    by (simpl; lia).
  split; [exact H2|]. split; [apply (Hout 2%Z); by left|].
  split; [exact Hm1|]. apply (Hneg (-1)%Z Hm1).
Defined.

(** X17.  The coordinate read-out.  On a well-shaped image [format_coord]
    always returns and never changes the view.  For a cell inside the image
    it reports the intensity, which is the pixel of the current image at that
    cell, the same value that the horizontal cross section through the cell
    holds at the cell's column and the vertical one at its row; for a cell
    outside it reports the coordinates alone. *)
Theorem format_coord_reads_pixel (self : View) (x y : Qc) :
  well_shaped (_imdata self) →
  (outside (_imdata self) (py_int (y + half)) (py_int (x + half)) →
     format_coord x y self
       = (Ok (XY (py_int (x + half)) (py_int (y + half))), self)) ∧
  (¬ outside (_imdata self) (py_int (y + half)) (py_int (x + half)) →
     ∃ z,
       format_coord x y self
         = (Ok (XYI (py_int (x + half)) (py_int (y + half)) z), self) ∧
       pixel (_imdata self) (Z.to_nat (py_int (y + half)))
         (Z.to_nat (py_int (x + half))) = Some z ∧
       row_slice (_imdata self) (Z.to_nat (py_int (y + half)))
         !! Z.to_nat (py_int (x + half)) = Some z ∧
       col_slice (_imdata self) (Z.to_nat (py_int (x + half)))
         !! Z.to_nat (py_int (y + half)) = Some z).
Proof.
  intros Hshape. split; [apply format_coord_outside|].
  intros Hin. destruct (inside_nat _ _ _ Hin) as (_ & _ & Hr & Hc).
  destruct (pixel_is_Some _ _ _ Hshape Hr Hc) as [z Hz].
  exists z. split_and!.
  - apply inside_true in Hin. unfold format_coord; run_view.
    simpl in Hin. rewrite Hin.
    apply getitem_pixel in Hz; [|done..]. by rewrite Hz.
  - done.
  - by rewrite row_slice_pixel.
  - by rewrite col_slice_pixel.
Qed.

Lemma format_coord_reads_pixel_witness :
  well_shaped (_imdata demo_view) ∧
  ¬ outside (_imdata demo_view) (py_int (1 + half)) (py_int (0 + half)) ∧
  ∃ z, format_coord 0 1 demo_view
       = (Ok (XYI (py_int (0 + half)) (py_int (1 + half)) z), demo_view).
Proof.
  assert (Hshape : well_shaped (_imdata demo_view)) by reflexivity.
  assert (Hin : ¬ outside (_imdata demo_view)
                  (py_int (1 + half)) (py_int (0 + half))).
  { replace (py_int (1 + half)) with 1%Z by (by vm_compute).
    replace (py_int (0 + half)) with 0%Z by (by vm_compute).
    unfold outside; simpl; lia. }
  split_and!; [exact Hshape | exact Hin |].
  destruct (format_coord_reads_pixel demo_view 0 1 Hshape) as [_ Hread].
  destruct (Hread Hin) as (z & Hz & _). by exists z.
Defined.



(** X19.  What the constructor does with the limit function.  Given a first
    key with an image stored under it, the constructor raises whatever the
    limit function raises for that image, with the default function a
    [ValueError] when the image has no pixels.  When the limit function
    returns a pair, the view is built with both side panels set to that
    pair, while the color limits of the image are left at the toolkit's
    default; they take the pair only with the first [replot]. *)
Theorem init_applies_limits_to_side_panels (data_list : list image)
    (key_list : list string) (limit_func : option limit_fn)
    (limit_args : option params) (k0 : string) (img : image) :
  key_list !! 0%nat = Some k0 →
  (AbstractDataView2D_init data_list key_list).1 !! k0 = Some img →
  (∀ e,
     default (returns _full_range) limit_func img
       (default (0, hundred) limit_args) = Raise e →
     __init__ data_list key_list limit_func limit_args = Raise e) ∧
  (limit_func = None → pix img = [] →
     __init__ data_list key_list limit_func limit_args = Raise ValueError) ∧
  (∀ v,
     default (returns _full_range) limit_func img
       (default (0, hundred) limit_args) = Ok v →
     ∃ self self',
       __init__ data_list key_list limit_func limit_args = Ok self ∧
       _imdata self = img ∧
       _ax_h_ylim self = v ∧ _ax_v_xlim self = v ∧ _im_clim self = None ∧
       replot self = (Ok tt, self') ∧ _im_clim self' = Some v).
Proof.
  intros Hk Himg. split_and!.
  - intros e He. by eapply init_raises.
  - intros -> Hnil. eapply init_raises; [done..|].
    simpl. by apply full_range_raises.
  - intros v Hv.
    destruct (init_tracks _ _ _ _ _ _ _ Hk Himg Hv) as (self & Hinit & Him & _).
    destruct (init_post _ _ _ _ _ Hinit)
      as (k0' & v' & _ & _ & _ & _ & Hf & HL & Hv' & Hy & Hx & _ & Hclim & _).
    assert (v' = v) as ->.
    { rewrite Hf, HL, Him in Hv'. congruence. }
    eexists self, _. split_and!; try done.
    + rewrite replot_run, Hv'. done.
    + done.
Qed.

Lemma init_applies_limits_to_side_panels_witness :
  ["a"; "b"]%string !! 0%nat = Some "a"%string ∧
  (AbstractDataView2D_init [frame_a; frame_b] ["a"; "b"]%string).1
    !! "a"%string = Some frame_a ∧
  ∃ self self',
    __init__ [frame_a; frame_b] ["a"; "b"]%string
      (Some (returns _absolute_limit)) (Some (0, Qc_of_Z 3)) = Ok self ∧
    _imdata self = frame_a ∧
    _ax_h_ylim self = (0, Qc_of_Z 3) ∧ _ax_v_xlim self = (0, Qc_of_Z 3) ∧
    _im_clim self = None ∧
    replot self = (Ok tt, self') ∧ _im_clim self' = Some (0, Qc_of_Z 3).
Proof.
  assert (Hk : ["a"; "b"]%string !! 0%nat = Some "a"%string) by done.
  assert (Himg : (AbstractDataView2D_init [frame_a; frame_b]
                    ["a"; "b"]%string).1 !! "a"%string = Some frame_a)
    by (by vm_compute).
  split_and!; [exact Hk | exact Himg |].
  destruct (init_applies_limits_to_side_panels [frame_a; frame_b]
              ["a"; "b"]%string (Some (returns _absolute_limit))
              (Some (0, Qc_of_Z 3)) "a"%string frame_a Hk Himg)
    as (_ & _ & Hbuilt).
  apply (Hbuilt (0, Qc_of_Z 3)). reflexivity.
Defined.
